(** * Material scattering of the CUDA path tracer ([src/interactions.h])

    A shallow embedding of the two hemisphere samplers and of [scatterRay],
    written once over an abstract floating-point interface and then read in
    two arithmetics:

    - [B32]: IEEE-754 binary32 (the C++ [float]), through the Standard
      Library's [SpecFloat] with [prec = 24] and [emax = 128]; it computes,
      and it has NaN, so it shows what the code returns on concrete inputs;
    - [Exact]: the real numbers, the arithmetic in which the specification
      states its formulas.

    Random numbers are drawn from an abstract generator state through [u01],
    the way the code calls [u01(rng)] on the engine it was handed. *)

From Stdlib Require Import ZArith Bool List Reals Lra.
From Stdlib Require Import Floats.SpecFloat.

Set Implicit Arguments.

(** ** The floating-point interface *)

Declare Scope fl_scope.
Delimit Scope fl_scope with fl.

(** The operations [interactions.h] applies to a [float].  [lit n d] is the
    decimal literal of value [n/d] ([0.001f] is [lit 1 1000]); [fpowi] is
    [pow] with an [int] exponent, [fltb a b] is [a < b] and [fleb a b] is
    [a <= b] ([a > b] is written [fltb b a]). *)
Class FloatOps (F : Type) : Type := {
  lit   : Z -> positive -> F;
  fadd  : F -> F -> F;
  fsub  : F -> F -> F;
  fmul  : F -> F -> F;
  fdiv  : F -> F -> F;
  fneg  : F -> F;
  fsqrt : F -> F;
  fabs  : F -> F;
  fcos  : F -> F;
  fsin  : F -> F;
  fpowi : F -> Z -> F;
  fltb  : F -> F -> bool;
  fleb  : F -> F -> bool
}.

Infix "+" := fadd : fl_scope.
Infix "-" := fsub : fl_scope.
Infix "*" := fmul : fl_scope.
Infix "/" := fdiv : fl_scope.
Notation "- x" := (fneg x) : fl_scope.
Notation "a <? b" := (fltb a b) : fl_scope.
Notation "a >? b" := (fltb b a) : fl_scope.
Notation "a <=? b" := (fleb a b) : fl_scope.
Notation "a >=? b" := (fleb b a) : fl_scope.

(** ** Vectors ([glm::vec3]) *)

Record vec3 (F : Type) : Type := mkvec3 { vx : F; vy : F; vz : F }.
Arguments mkvec3 {F} _ _ _.
Arguments vx {F} _.
Arguments vy {F} _.
Arguments vz {F} _.

Declare Scope vec_scope.
Delimit Scope vec_scope with vec.

(** GLM is a library the source includes, not code of the repository; the
    functions below follow GLM's definitions ([detail/type_vec3.inl],
    [detail/func_geometric.inl]). *)
Module glm.
Section Glm.
Context {F : Type} `{FloatOps F}.
Local Open Scope fl_scope.

(** [vec3(x, y, z)] of integer literals. *)
Definition ivec3 (a b c : Z) : vec3 F := mkvec3 (lit a 1) (lit b 1) (lit c 1).

(** [v1 + v2], [v1 - v2], [v1 * v2]: componentwise. *)
Definition vadd (a b : vec3 F) : vec3 F :=
  mkvec3 (vx a + vx b) (vy a + vy b) (vz a + vz b).
Definition vsub (a b : vec3 F) : vec3 F :=
  mkvec3 (vx a - vx b) (vy a - vy b) (vz a - vz b).
Definition vmul (a b : vec3 F) : vec3 F :=
  mkvec3 (vx a * vx b) (vy a * vy b) (vz a * vz b).
(** [-v]. *)
Definition vneg (a : vec3 F) : vec3 F := mkvec3 (- vx a) (- vy a) (- vz a).
(** [scalar * v] and [v * scalar]. *)
Definition smul (s : F) (v : vec3 F) : vec3 F :=
  mkvec3 (s * vx v) (s * vy v) (s * vz v).
Definition vmuls (v : vec3 F) (s : F) : vec3 F :=
  mkvec3 (vx v * s) (vy v * s) (vz v * s).

(** [glm::dot]: [tmp = a * b; tmp.x + tmp.y + tmp.z]. *)
Definition dot (a b : vec3 F) : F :=
  vx a * vx b + vy a * vy b + vz a * vz b.

(** [glm::cross]. *)
Definition cross (a b : vec3 F) : vec3 F :=
  mkvec3 (vy a * vz b - vy b * vz a)
         (vz a * vx b - vz b * vx a)
         (vx a * vy b - vx b * vy a).

(** [glm::inversesqrt] and [glm::normalize]: [v * inversesqrt(dot(v, v))]. *)
Definition inversesqrt (a : F) : F := lit 1 1 / fsqrt a.
Definition normalize (v : vec3 F) : vec3 F := vmuls v (inversesqrt (dot v v)).

(** [glm::reflect]: [I - N * dot(N, I) * 2]. *)
Definition reflect (I N : vec3 F) : vec3 F :=
  vsub I (vmuls (vmuls N (dot N I)) (lit 2 1)).

(** [glm::refract]: with [k = 1 - eta * eta * (1 - dot(N, I) * dot(N, I))],
    [eta * I - (eta * dot(N, I) + sqrt(k)) * N] when [k >= 0], else the
    zero vector. *)
Definition refract (I N : vec3 F) (eta : F) : vec3 F :=
  let dotValue := dot N I in
  let k := lit 1 1 - eta * eta * (lit 1 1 - dotValue * dotValue) in
  if k >=? lit 0 1
  then vsub (smul eta I) (smul (eta * dotValue + fsqrt k) N)
  else ivec3 0 0 0.
End Glm.
End glm.

Infix "+" := glm.vadd : vec_scope.
Infix "-" := glm.vsub : vec_scope.
Infix "*" := glm.vmul : vec_scope.
Notation "- v" := (glm.vneg v) : vec_scope.
Infix "*:" := glm.smul (at level 40, left associativity) : vec_scope.
Infix ":*" := glm.vmuls (at level 40, left associativity) : vec_scope.

(** ** A small state monad

    [u01(rng)] advances the engine it is given by reference, and [scatterRay]
    writes through its [PathSegment &]: both are state passing. *)
Definition M (S A : Type) : Type := S -> A * S.

Definition ret {S A} (a : A) : M S A := fun s => (a, s).
Definition bind {S A B} (c : M S A) (k : A -> M S B) : M S B :=
  fun s => let (a, s') := c s in k a s'.
Definition gets {S A} (f : S -> A) : M S A := fun s => (f s, s).
Definition modify {S} (f : S -> S) : M S unit := fun s => (tt, f s).

Notation "x <- c ;; k" := (bind c (fun x => k))
  (at level 61, c at next level, right associativity).
Notation "c ;;; k" := (bind c (fun _ => k))
  (at level 61, right associativity).

(** ** What the source is handed

    The random engine: a generator state [RNG] and one draw of
    [uniform_real_distribution<float> u01(0, 1)] from it. *)
Class Uniform01 (F : Type) : Type := {
  RNG : Type;
  u01 : M RNG F
}.

(** The macros [TWO_PI] and [SQRT_OF_ONE_THIRD] come from a header that is
    not part of the sources at hand. *)
Class Constants (F : Type) : Type := {
  TWO_PI : F;
  SQRT_OF_ONE_THIRD : F
}.

(** ** The hemisphere samplers *)

Section Samplers.
Context {F : Type} `{FloatOps F} `{Uniform01 F} `{Constants F}.

Import glm.
Local Open Scope fl_scope.

(** Lines 24-31 and 57-66: the axis used to build the tangent frame. *)
Definition directionNotNormal (normal : vec3 F) : vec3 F :=
  if fabs (vx normal) <? SQRT_OF_ONE_THIRD then ivec3 1 0 0
  else if fabs (vy normal) <? SQRT_OF_ONE_THIRD then ivec3 0 1 0
  else ivec3 0 0 1.

(** Lines 33-41 and 68-76: the returned combination, from [up], [over] and
    [around]. *)
Definition hemisphereDirection (normal : vec3 F) (up over around : F) : vec3 F :=
  let perpendicularDirection1 := normalize (cross normal (directionNotNormal normal)) in
  let perpendicularDirection2 := normalize (cross normal perpendicularDirection1) in
  (up *: normal
   + (fcos around * over)%fl *: perpendicularDirection1
   + (fsin around * over)%fl *: perpendicularDirection2)%vec.

(** [calculateRandomDirectionInHemisphere], lines 10-42. *)
Definition calculateRandomDirectionInHemisphere (normal : vec3 F) : M RNG (vec3 F) :=
  u <- u01 ;;
  let up := fsqrt u in
  let over := fsqrt (lit 1 1 - up * up) in
  v <- u01 ;;
  let around := v * TWO_PI in
  ret (hemisphereDirection normal up over around).

(** Lines 50-51: the remapped pair [(s_p, t_p)]. *)
Definition shirleyRemap (s t : F) : F * F :=
  let s_p := if s <? lit 1 2 then - lit 1 2 + fsqrt (lit 2 1 * s)
             else lit 3 2 - fsqrt (lit 2 1 - lit 2 1 * s) in
  let t_p := if s <? lit 1 2 then - lit 1 2 + fsqrt (lit 2 1 * t)
             else lit 3 2 - fsqrt (lit 2 1 - lit 2 1 * t) in
  (s_p, t_p).

(** Lines 53-76, from the two draws. *)
Definition shirleyDirection (normal : vec3 F) (s t : F) : vec3 F :=
  let '(s_p, t_p) := shirleyRemap s t in
  let up := fsqrt t_p in
  let over := fsqrt (lit 1 1 - up * up) in
  let around := s_p * TWO_PI in
  hemisphereDirection normal up over around.

(** [shirleyRandomDirectionInHemisphere], lines 44-77. *)
Definition shirleyRandomDirectionInHemisphere (normal : vec3 F) : M RNG (vec3 F) :=
  s <- u01 ;;
  t <- u01 ;;
  ret (shirleyDirection normal s t).
End Samplers.

(** ** Scene records

    Modelled from the spec: [Ray], [PathSegment], [ShadeableIntersection] and
    [Material] are declared in a header that is not part of the sources at
    hand; the fields are those of the specification's data model and those
    [scatterRay] reads or writes. *)
Section Records.
Variable F : Type.

Record Ray : Type := mkRay { origin : vec3 F; direction : vec3 F }.

Record PathSegment : Type := mkPathSegment {
  ray : Ray;
  color : vec3 F;
  pixelIndex : Z;
  remainingBounces : Z
}.

Record ShadeableIntersection : Type := mkShadeableIntersection {
  t : F;
  surfaceNormal : vec3 F;
  outside : bool
}.

Record Specular : Type := mkSpecular { specular_color : vec3 F }.

Record Material : Type := mkMaterial {
  material_color : vec3 F;
  specular : Specular;
  hasReflective : bool;
  hasRefractive : bool;
  indexOfRefraction : F
}.
End Records.

Arguments mkRay {F} _ _.
Arguments mkPathSegment {F} _ _ _ _.
Arguments mkShadeableIntersection {F} _ _ _.
Arguments mkSpecular {F} _.
Arguments mkMaterial {F} _ _ _ _ _.

(** ** [scatterRay] *)

Section Scatter.
Context {F : Type} `{FloatOps F} `{Uniform01 F} `{Constants F}.

Import glm.
Local Open Scope fl_scope.

(** What [scatterRay] holds by non-const reference: the path segment, the
    intersection and the random engine.  The material is a [const &] and
    is an argument. *)
Record Mem : Type := mkMem {
  pathSegment : PathSegment F;
  intersection : ShadeableIntersection F;
  rng : RNG
}.

(** A call that is handed [rng]. *)
Definition with_rng {A} (c : M RNG A) : M Mem A :=
  fun σ => let (a, g) := c (rng σ) in
           (a, mkMem (pathSegment σ) (intersection σ) g).

(** [pathSegment.ray.origin = v], [pathSegment.ray.direction = v] and
    [pathSegment.color *= v]. *)
Definition on_pathSegment (f : PathSegment F -> PathSegment F) : M Mem unit :=
  modify (fun σ => mkMem (f (pathSegment σ)) (intersection σ) (rng σ)).
Definition set_origin (v : vec3 F) : M Mem unit :=
  on_pathSegment (fun p =>
    mkPathSegment (mkRay v (direction (ray p))) (color p)
                  (pixelIndex p) (remainingBounces p)).
Definition set_direction (v : vec3 F) : M Mem unit :=
  on_pathSegment (fun p =>
    mkPathSegment (mkRay (origin (ray p)) v) (color p)
                  (pixelIndex p) (remainingBounces p)).
Definition mul_color (v : vec3 F) : M Mem unit :=
  on_pathSegment (fun p =>
    mkPathSegment (ray p) (color p * v)%vec
                  (pixelIndex p) (remainingBounces p)).

(** Reads of [pathSegment.ray.origin], [pathSegment.ray.direction],
    [intersection.t], [intersection.surfaceNormal], [intersection.outside]. *)
Definition ray_origin : M Mem (vec3 F) := gets (fun σ => origin (ray (pathSegment σ))).
Definition ray_direction : M Mem (vec3 F) := gets (fun σ => direction (ray (pathSegment σ))).
Definition isect_t : M Mem F := gets (fun σ => t (intersection σ)).
Definition isect_normal : M Mem (vec3 F) := gets (fun σ => surfaceNormal (intersection σ)).
Definition isect_outside : M Mem bool := gets (fun σ => outside (intersection σ)).

(** Lines 123-185: the dispatch on the material, once [normal],
    [intersect], [dir_spec], [dir_diff] and [choice] are known. *)
Definition scatterDispatch (m : Material F)
    (normal intersect dir_spec dir_diff : vec3 F) (choice : F) : M Mem unit :=
  if hasRefractive m then
    d <- ray_direction ;;
    let cos_theta := dot (- d)%vec normal in
    let sin_theta := fsqrt (lit 1 1 - cos_theta * cos_theta) in
    out <- isect_outside ;;
    let ratio := if negb out then lit 1 1 / indexOfRefraction m
                 else indexOfRefraction m in
    d <- ray_direction ;; n <- isect_normal ;;
    let dir_refr := refract d n ratio in
    let r0 := (lit 1 1 - ratio) * (lit 1 1 - ratio) / (lit 1 1 + ratio) / (lit 1 1 + ratio) in
    let r := r0 + (lit 1 1 - r0) * fpowi (lit 1 1 - cos_theta) 5 in (* reflectance *)
    if ratio * sin_theta >? lit 1 1 then
      (* must reflect *)
      set_direction dir_spec ;;;
      mul_color (specular_color (specular m))
    else
      (* can refract *)
      if choice >? r then
        (* refract *)
        set_direction dir_refr ;;;
        set_origin (intersect - lit 1 1000 *: normal)%vec ;;;
        mul_color (material_color m)
      else
        (* reflect *)
        set_direction dir_spec ;;;
        mul_color (specular_color (specular m))
  else
    (* specular or diffusive *)
    let '(spec, scale) :=
      if hasReflective m then (choice >? lit 2 10, lit 8 10)
      else (false, lit 0 1) in
    (* update ray direction *)
    set_direction (if spec then dir_spec else dir_diff) ;;;
    (* update color *)
    if spec then mul_color (specular_color (specular m) :* scale)%vec
    else mul_color (material_color m :* (lit 1 1 - scale)%fl)%vec.

(** [scatterRay], lines 103-186: lines 112-121, then the dispatch. *)
Definition scatterRay (m : Material F) : M Mem unit :=
  normal <- isect_normal ;;
  (* update ray origin *)
  o <- ray_origin ;; t <- isect_t ;; d <- ray_direction ;;
  let intersect := (o + t *: d)%vec in
  set_origin (intersect + lit 1 1000 *: normal)%vec ;;;
  d <- ray_direction ;;
  let dir_spec := normalize (reflect d normal) in
  dir_diff <- with_rng (shirleyRandomDirectionInHemisphere normal) ;;
  choice <- with_rng u01 ;;
  scatterDispatch m normal intersect dir_spec dir_diff choice.
End Scatter.

Arguments Mem F {_}.

(** ** A generator that replays a sequence of draws

    Any source of uniform numbers is a sequence of draws and a position in
    it; [drawn] counts the draws consumed so far. *)
Record Tape (F : Type) : Type := mkTape { drawn : nat; draws : nat -> F }.
Arguments mkTape {F} _ _.

Definition tape_u01 {F} : M (Tape F) F :=
  fun τ => (draws τ (drawn τ), mkTape (S (drawn τ)) (draws τ)).

#[export] Instance replay (F : Type) : Uniform01 F := {|
  RNG := Tape F;
  u01 := tape_u01
|}.

(** ** Binary32 arithmetic *)

Module B32.
Definition prec : Z := 24.
Definition emax : Z := 128.

Definition float : Type := spec_float.

Definition NaN : float := S754_nan.

(** The binary32 nearest to [n/d] (ties to even), as a compiler reads a
    decimal literal. *)
Definition of_ratio (n : Z) (d : positive) : float :=
  match n with
  | Z0 => S754_zero false
  | Zpos p =>
      let '(q, e, l) := SFdiv_core_binary prec emax (Zpos p) 0 (Zpos d) 0 in
      binary_round_aux prec emax false q e l
  | Zneg p =>
      let '(q, e, l) := SFdiv_core_binary prec emax (Zpos p) 0 (Zpos d) 0 in
      binary_round_aux prec emax true q e l
  end.

(** [cos], [sin] and [pow] are library routines whose results IEEE-754
    does not fix; they stay parameters of the arithmetic. *)
Class Libm : Type := mkLibm {
  cosf : float -> float;
  sinf : float -> float;
  powif : float -> Z -> float
}.

#[export] Instance ops `{Libm} : FloatOps float := {|
  lit := of_ratio;
  fadd := SFadd prec emax;
  fsub := SFsub prec emax;
  fmul := SFmul prec emax;
  fdiv := SFdiv prec emax;
  fneg := SFopp;
  fsqrt := SFsqrt prec emax;
  fabs := SFabs;
  fcos := cosf;
  fsin := sinf;
  fpowi := powif;
  fltb := SFltb;
  fleb := SFleb
|}.

(** The binary32 values of the two macros. *)
#[export] Instance constants : Constants float := {|
  TWO_PI := of_ratio 62831853071795864769 10000000000000000000;
  SQRT_OF_ONE_THIRD := of_ratio 57735026918962576451 100000000000000000000
|}.

(** Tuples of floats as vectors, and a tape made of a list of draws
    (NaN once the list is exhausted). *)
Definition vec (a b c : float) : vec3 float := mkvec3 a b c.
Definition tape (l : list float) : @RNG float (replay float) :=
  mkTape 0 (fun i => nth i l NaN).
End B32.


(** ** Exact arithmetic

    The same operations on the real numbers.  [sqrt] of a negative real is
    [0] here where the machine returns NaN, so this reading is used for what
    the specification states about branches and factors, not for the domain
    of [sqrt]. *)
Module Exact.
Definition Rltb (a b : R) : bool := if Rlt_dec a b then true else false.
Definition Rleb (a b : R) : bool := if Rle_dec a b then true else false.

#[export] Instance ops : FloatOps R := {|
  lit := fun n d => (IZR n / IZR (Zpos d))%R;
  fadd := Rplus;
  fsub := Rminus;
  fmul := Rmult;
  fdiv := Rdiv;
  fneg := Ropp;
  fsqrt := sqrt;
  fabs := Rabs;
  fcos := cos;
  fsin := sin;
  fpowi := powerRZ;
  fltb := Rltb;
  fleb := Rleb
|}.

#[export] Instance constants : Constants R := {|
  TWO_PI := (2 * PI)%R;
  SQRT_OF_ONE_THIRD := sqrt (1 / 3)
|}.

(** For a draw that is uniform on [[0, 1)], the probability of falling
    between [lo] and [hi], with [0 <= lo <= hi <= 1]: the length of the
    interval. *)
Definition uniformProbability (lo hi : R) : R := (hi - lo)%R.

(** Sample inputs: a ray along [+x] that grazes a surface of normal [+z] at
    distance 1, carried by a white path segment, with every draw equal to
    [0.5]; a glass, a glossy and a matte grey material. *)
Definition white : vec3 R := mkvec3 1%R 1%R 1%R.
Definition grazing : Mem R :=
  mkMem (mkPathSegment (mkRay (mkvec3 0 0 0) (mkvec3 1 0 0))%R white 7 3)
        (mkShadeableIntersection 1 (mkvec3 0 0 1) true)%R
        (mkTape 0 (fun _ => 1 / 2)%R).
Definition glass : Material R :=
  mkMaterial white (mkSpecular white) false true (3 / 2)%R.
Definition glossy : Material R :=
  mkMaterial white (mkSpecular white) true false 1%R.
Definition grey : Material R :=
  mkMaterial (mkvec3 (1 / 2) (1 / 2) (1 / 2))%R (mkSpecular white) false false 1%R.
End Exact.

(** ** Vocabulary of the specification *)

Section Vocabulary.
Context {F : Type} `{FloatOps F} `{Uniform01 F} `{Constants F}.

Import glm.
Local Open Scope fl_scope.

(** The generator after [k] draws, and the value of draw number [k]
    (counting from 0). *)
Definition after (k : nat) (g : RNG) : RNG := Nat.iter k (fun g => snd (u01 g)) g.
Definition draw (k : nat) (g : RNG) : F := fst (u01 (after k g)).

(** The memory [scatterRay] leaves behind. *)
Definition result (m : Material F) (σ : Mem F) : Mem F :=
  snd (scatterRay m σ).

(** Quantities of the call, read in the memory before it. *)
Definition normalOf (σ : Mem F) : vec3 F := surfaceNormal (intersection σ).
Definition incoming (σ : Mem F) : vec3 F := direction (ray (pathSegment σ)).
Definition hitPoint (σ : Mem F) : vec3 F :=
  (origin (ray (pathSegment σ)) + t (intersection σ) *: incoming σ)%vec.
Definition mirror (σ : Mem F) : vec3 F :=
  normalize (reflect (incoming σ) (normalOf σ)).
Definition hemisphereSample (σ : Mem F) : vec3 F :=
  shirleyDirection (normalOf σ) (draw 0 (rng σ)) (draw 1 (rng σ)).
Definition choiceOf (σ : Mem F) : F := draw 2 (rng σ).

(** The Fresnel quantities as the specification words them. *)
Definition cosThetaI (σ : Mem F) : F := dot (- incoming σ)%vec (normalOf σ).
Definition sinThetaI (σ : Mem F) : F :=
  fsqrt (lit 1 1 - cosThetaI σ * cosThetaI σ).
Definition etaOf (m : Material F) (σ : Mem F) : F :=
  if outside (intersection σ) then indexOfRefraction m
  else lit 1 1 / indexOfRefraction m.
Definition schlick (eta cosTheta : F) : F :=
  let r0 := ((lit 1 1 - eta) / (lit 1 1 + eta)) * ((lit 1 1 - eta) / (lit 1 1 + eta)) in
  r0 + (lit 1 1 - r0) * fpowi (lit 1 1 - cosTheta) 5.
(** The reflectance with [r0] parenthesised as line 131 has it. *)
Definition reflectance (ratio cos_theta : F) : F :=
  let r0 := (lit 1 1 - ratio) * (lit 1 1 - ratio) / (lit 1 1 + ratio) / (lit 1 1 + ratio) in
  r0 + (lit 1 1 - r0) * fpowi (lit 1 1 - cos_theta) 5.
Definition refracted (m : Material F) (σ : Mem F) : vec3 F :=
  refract (incoming σ) (normalOf σ) (etaOf m σ).
Definition totalInternalReflection (m : Material F) (σ : Mem F) : bool :=
  etaOf m σ * sinThetaI σ >? lit 1 1.

(** The memory after a call that left the ray at [o] with direction [d] and
    multiplied the colour by [c]: nothing else differs from [σ] but the
    generator, three draws further. *)
Definition outcome (σ : Mem F) (o d c : vec3 F) : Mem F :=
  mkMem (mkPathSegment (mkRay o d) (color (pathSegment σ) * c)%vec
                       (pixelIndex (pathSegment σ))
                       (remainingBounces (pathSegment σ)))
        (intersection σ)
        (after 3 (rng σ)).

Definition offsetOut (σ : Mem F) : vec3 F :=
  (hitPoint σ + lit 1 1000 *: normalOf σ)%vec.
Definition offsetIn (σ : Mem F) : vec3 F :=
  (hitPoint σ - lit 1 1000 *: normalOf σ)%vec.

(** The two outcomes of a refractive material, and the two of the others. *)
Definition reflects (m : Material F) (σ : Mem F) : Mem F :=
  outcome σ (offsetOut σ) (mirror σ) (specular_color (specular m)).
Definition refracts (m : Material F) (σ : Mem F) : Mem F :=
  outcome σ (offsetIn σ) (refracted m σ) (material_color m).
Definition bouncesSpecular (m : Material F) (σ : Mem F) (k : F) : Mem F :=
  outcome σ (offsetOut σ) (mirror σ) (specular_color (specular m) :* k)%vec.
Definition bouncesDiffuse (m : Material F) (σ : Mem F) (k : F) : Mem F :=
  outcome σ (offsetOut σ) (hemisphereSample σ) (material_color m :* k)%vec.

(** The remapping of one coordinate as the specification words it, and
    [glm::length] with the unit-length test at a tolerance. *)
Definition remapCoordinate (x : F) : F :=
  if x <? lit 1 2 then - lit 1 2 + fsqrt (lit 2 1 * x)
  else lit 3 2 - fsqrt (lit 2 1 - lit 2 1 * x).
Definition length (v : vec3 F) : F := fsqrt (dot v v).
Definition unitWithin (tol : F) (v : vec3 F) : bool :=
  fabs (length v - lit 1 1) <=? tol.
Definition inHemisphere (normal v : vec3 F) : bool :=
  dot v normal >=? lit 0 1.

(** The memory at line 123: the origin moved off the surface, three draws
    taken. *)
Definition atDispatch (σ : Mem F) : Mem F :=
  mkMem (mkPathSegment (mkRay (offsetOut σ) (incoming σ))
                       (color (pathSegment σ))
                       (pixelIndex (pathSegment σ))
                       (remainingBounces (pathSegment σ)))
        (intersection σ)
        (after 3 (rng σ)).
End Vocabulary.

(** ** Vocabulary of the code beyond the specification *)

Section Variations.
Context {F : Type} `{FloatOps F} `{Uniform01 F} `{Constants F}.

Import glm.
Local Open Scope fl_scope.

(** Lines 34-37 and 69-72: the two tangent directions. *)
Definition perpendicularDirection1 (normal : vec3 F) : vec3 F :=
  normalize (cross normal (directionNotNormal normal)).
Definition perpendicularDirection2 (normal : vec3 F) : vec3 F :=
  normalize (cross normal (perpendicularDirection1 normal)).

(** The [k] that [glm::refract] tests. *)
Definition refractK (I N : vec3 F) (eta : F) : F :=
  lit 1 1 - eta * eta * (lit 1 1 - dot N I * dot N I).

(** The same call on another generator, and the same material with another
    [hasReflective]. *)
Definition withGenerator (σ : Mem F) (g : RNG) : Mem F :=
  mkMem (pathSegment σ) (intersection σ) g.
Definition withReflective (m : Material F) (b : bool) : Material F :=
  mkMaterial (material_color m) (specular m) b (hasRefractive m)
             (indexOfRefraction m).
End Variations.

(** Colours as the renderer carries them: each component between 0 and 1. *)
Definition inUnitCube (v : vec3 R) : Prop :=
  (0 <= vx v <= 1 /\ 0 <= vy v <= 1 /\ 0 <= vz v <= 1)%R.

(** More sample inputs: a generator whose third draw agrees with the one of
    [Exact.grazing], and a refractive material of index 1. *)
Definition otherTape : Tape R :=
  mkTape 5 (fun i => match i with 7%nat => 1 / 2 | _ => 1 / 4 end)%R.
Definition clearGlass : Material R :=
  mkMaterial Exact.white (mkSpecular Exact.white) false true 1%R.
Definition thirdDrawDiffers : Tape R :=
  mkTape 0 (fun i => match i with 2%nat => 9 / 10 | _ => 1 / 2 end)%R.

(** A sample [Libm] for closed binary32 examples: two-term Taylor
    polynomials and repeated multiplication. *)
Definition sampleLibm : B32.Libm :=
  let mul := SFmul B32.prec B32.emax in
  let sub := SFsub B32.prec B32.emax in
  let div := SFdiv B32.prec B32.emax in
  B32.mkLibm
    (fun x => sub (B32.of_ratio 1 1) (div (mul x x) (B32.of_ratio 2 1)))
    (fun x => sub x (div (mul x (mul x x)) (B32.of_ratio 6 1)))
    (fun x n => Z.iter n (mul x) (B32.of_ratio 1 1)).

(** Binary32 sample inputs: the normal [glm::normalize(vec3(2, 3, 6))], whose
    computed squared length is [1 + 2^-22], met head-on by a ray, and a
    glass. *)
Definition slantedNormal : vec3 B32.float :=
  @glm.normalize _ (@B32.ops sampleLibm) (@glm.ivec3 _ (@B32.ops sampleLibm) 2 3 6).
Definition slantedHeadOn : @Mem B32.float (replay B32.float) :=
  let one := B32.of_ratio 1 1 in
  mkMem (mkPathSegment
           (mkRay (mkvec3 one one one)
                  (@glm.vneg _ (@B32.ops sampleLibm) slantedNormal))
           (mkvec3 one one one) 0 8)
        (mkShadeableIntersection one slantedNormal true)
        (B32.tape (B32.of_ratio 1 2 :: B32.of_ratio 1 2 :: B32.of_ratio 1 2 :: nil)).
Definition binary32Glass : Material B32.float :=
  let one := B32.of_ratio 1 1 in
  mkMaterial (mkvec3 one one one) (mkSpecular (mkvec3 one one one))
             false true (B32.of_ratio 3 2).

(** [a <= b] and [a > b] never hold together (with a NaN operand both are
    false): the one fact about [float] comparisons that relates the
    [choice <= r] of the specification to the [choice > r] of line 140. *)
Class FloatOrder (F : Type) `{FloatOps F} : Prop := {
  fleb_not_gt : forall a b : F, fleb a b = true -> fltb b a = false
}.
Arguments FloatOrder F {_}.

(** A binary32 ray of computed length exactly 1 that skims a surface of
    normal [+z], for a glass of index 1.5 met from outside. *)
Definition skimming : @Mem B32.float (replay B32.float) :=
  let zero := B32.of_ratio 0 1 in
  let one := B32.of_ratio 1 1 in
  let half := B32.of_ratio 1 2 in
  mkMem (mkPathSegment
           (mkRay (mkvec3 zero zero one)
                  (mkvec3 (B32.of_ratio 2 3) zero
                          (B32.of_ratio (-745355964) 1000000000)))
           (mkvec3 one one one) 0 8)
        (mkShadeableIntersection one (mkvec3 zero zero one) true)
        (B32.tape (half :: half :: half :: nil)).

(** Binary32 rays that arrive head-on along [-z] on a surface of normal
    [+z], from outside or from inside, with a chosen third draw, and a dense
    glass of index 2. *)
Definition headOn32 (out : bool) (choice : B32.float) :
    @Mem B32.float (replay B32.float) :=
  let zero := B32.of_ratio 0 1 in
  let one := B32.of_ratio 1 1 in
  let half := B32.of_ratio 1 2 in
  mkMem (mkPathSegment
           (mkRay (mkvec3 zero zero one) (mkvec3 zero zero (B32.of_ratio (-1) 1)))
           (mkvec3 one one one) 0 8)
        (mkShadeableIntersection one (mkvec3 zero zero one) out)
        (B32.tape (half :: half :: choice :: nil)).
Definition denseGlass : Material B32.float :=
  let one := B32.of_ratio 1 1 in
  mkMaterial (mkvec3 one one one) (mkSpecular (mkvec3 one one one))
             false true (B32.of_ratio 2 1).


(** Unfold the vector operations down to the components. *)
Ltac by_components :=
  unfold glm.reflect, glm.normalize, glm.inversesqrt, glm.dot, glm.cross,
    glm.vadd, glm.vsub, glm.vmul, glm.vneg, glm.smul, glm.vmuls, glm.ivec3 in *;
  cbn [vx vy vz] in *.

(** Read the interface operations as operations on the reals. *)
Ltac exact_ops :=
  cbn [Exact.ops lit fadd fsub fmul fdiv fneg fsqrt fabs fcos fsin fpowi
       fltb fleb] in *.

(** * Facts *)

(** ** Running the samplers and [scatterRay] *)

Section ScatterFacts.
Context {F : Type} `{FloatOps F} `{Uniform01 F} `{Constants F}.

Import glm.
Local Open Scope fl_scope.

Lemma sampler_runs (normal : vec3 F) (g : RNG) :
  shirleyRandomDirectionInHemisphere normal g
  = (shirleyDirection normal (draw 0 g) (draw 1 g), after 2 g).
Proof.
  unfold shirleyRandomDirectionInHemisphere, bind, ret, draw, after.
  simpl.
  destruct (u01 g) as [s g1]; simpl.
  destruct (u01 g1) as [t g2]; reflexivity.
Qed.

Lemma baseline_runs (normal : vec3 F) (g : RNG) :
  calculateRandomDirectionInHemisphere normal g
  = (let up := fsqrt (draw 0 g) in
     hemisphereDirection normal up (fsqrt (lit 1 1 - up * up)) (draw 1 g * TWO_PI),
     after 2 g).
Proof.
  unfold calculateRandomDirectionInHemisphere, bind, ret, draw, after.
  simpl.
  destruct (u01 g) as [s g1]; simpl.
  destruct (u01 g1) as [t g2]; reflexivity.
Qed.

(** The first coordinate is remapped on its own value, the second on the
    side its partner [s] falls. *)
Lemma shirleyRemap_first (s t : F) : fst (shirleyRemap s t) = remapCoordinate s.
Proof. reflexivity. Qed.

Lemma shirleyRemap_second (s t : F) :
  snd (shirleyRemap s t)
  = if s <? lit 1 2 then - lit 1 2 + fsqrt (lit 2 1 * t)
    else lit 3 2 - fsqrt (lit 2 1 - lit 2 1 * t).
Proof. reflexivity. Qed.

Lemma scatterRay_runs (m : Material F) (σ : Mem F) :
  result m σ
  = snd (scatterDispatch m (normalOf σ) (hitPoint σ) (mirror σ)
                         (hemisphereSample σ) (choiceOf σ) (atDispatch σ)).
Proof.
  unfold result, scatterRay, bind.
  unfold isect_normal, ray_origin, isect_t, ray_direction, gets,
    set_origin, on_pathSegment, modify, with_rng.
  cbn [pathSegment intersection rng ray origin direction fst snd].
  rewrite sampler_runs.
  cbn [pathSegment intersection rng ray origin direction fst snd].
  destruct (u01 (after 2 (rng σ))) as [c g3] eqn:E3.
  replace (choiceOf σ) with c
    by (unfold choiceOf, draw; now rewrite E3).
  replace (atDispatch σ) with
    (mkMem (mkPathSegment
              (mkRay (hitPoint σ + lit 1 1000 *: normalOf σ)%vec (incoming σ))
              (color (pathSegment σ)) (pixelIndex (pathSegment σ))
              (remainingBounces (pathSegment σ)))
           (intersection σ) g3).
  - reflexivity.
  - unfold atDispatch, offsetOut.
    change (after 3 (rng σ)) with (snd (u01 (after 2 (rng σ)))).
    now rewrite E3.
Qed.

(** The dispatch of a refractive material: one of two outcomes. *)
Lemma refractive_runs (m : Material F) (σ : Mem F) :
  hasRefractive m = true ->
  result m σ
  = if totalInternalReflection m σ then reflects m σ
    else if choiceOf σ >? reflectance (etaOf m σ) (cosThetaI σ) then refracts m σ
    else reflects m σ.
Proof.
  intros Hm. rewrite scatterRay_runs.
  unfold scatterDispatch. rewrite Hm.
  unfold bind, ray_direction, isect_outside, isect_normal, gets.
  cbn [fst snd atDispatch pathSegment intersection rng ray direction origin].
  unfold totalInternalReflection, reflectance, refracts, reflects, refracted,
    outcome, offsetOut, offsetIn, sinThetaI, etaOf.
  fold (normalOf σ). fold (cosThetaI σ). fold (incoming σ).
  destruct (outside (intersection σ)); cbn [negb];
    repeat match goal with |- context [if ?c then _ else _] => destruct c end;
    reflexivity.
Qed.

(** The dispatch of the other materials. *)
Lemma reflective_runs (m : Material F) (σ : Mem F) :
  hasRefractive m = false -> hasReflective m = true ->
  result m σ
  = if choiceOf σ >? lit 2 10 then bouncesSpecular m σ (lit 8 10)
    else bouncesDiffuse m σ (lit 1 1 - lit 8 10).
Proof.
  intros Hr Hm. rewrite scatterRay_runs.
  unfold scatterDispatch. rewrite Hr, Hm.
  destruct (choiceOf σ >? lit 2 10); reflexivity.
Qed.

Lemma diffuse_runs (m : Material F) (σ : Mem F) :
  hasRefractive m = false -> hasReflective m = false ->
  result m σ = bouncesDiffuse m σ (lit 1 1 - lit 0 1).
Proof.
  intros Hr Hm. rewrite scatterRay_runs.
  unfold scatterDispatch. rewrite Hr, Hm. reflexivity.
Qed.
End ScatterFacts.

(** ** The call in every arithmetic *)

Section EveryArithmetic.
Context {F : Type} `{FloatOps F} `{Uniform01 F} `{Constants F}.

Import glm.
Local Open Scope fl_scope.

(** The dispatch draws nothing and leaves the intersection alone. *)
Lemma scatterDispatch_frame (m : Material F)
    (normal intersect dir_spec dir_diff : vec3 F) (choice : F) (τ : Mem F) :
  let τ' := snd (scatterDispatch m normal intersect dir_spec dir_diff choice τ) in
  rng τ' = rng τ
  /\ intersection τ' = intersection τ
  /\ pixelIndex (pathSegment τ') = pixelIndex (pathSegment τ)
  /\ remainingBounces (pathSegment τ') = remainingBounces (pathSegment τ).
Proof.
  unfold scatterDispatch.
  destruct (hasRefractive m).
  - unfold bind, ray_direction, isect_outside, isect_normal, gets.
    cbn [fst snd].
    repeat match goal with |- context [if ?c then _ else _] => destruct c end;
      cbv zeta; repeat split.
  - destruct (hasReflective m);
      [destruct (choice >? lit 2 10) | ]; cbv zeta; repeat split.
Qed.

Lemma result_rng (m : Material F) (σ : Mem F) :
  rng (result m σ) = after 3 (rng σ).
Proof.
  rewrite scatterRay_runs.
  destruct (scatterDispatch_frame m (normalOf σ) (hitPoint σ) (mirror σ)
              (hemisphereSample σ) (choiceOf σ) (atDispatch σ)) as (Hg & _).
  rewrite Hg. reflexivity.
Qed.

(** C4: for a refractive material under total internal reflection
    ([eta * sinThetaI > 1], [eta] taken after the flip on [outside]) the call
    leaves the mirror direction, multiplies the colour by the specular
    colour and keeps the origin on the [+normal] side; the path segment it
    leaves is the same whatever generator, hence whatever [choice], it is
    run with. *)
Theorem C4_total_internal_reflection_reflects (m : Material F) (σ : Mem F) :
  hasRefractive m = true ->
  totalInternalReflection m σ = true ->
  result m σ = reflects m σ
  /\ direction (ray (pathSegment (result m σ))) = mirror σ
  /\ color (pathSegment (result m σ))
     = (color (pathSegment σ) * specular_color (specular m))%vec
  /\ forall g : RNG,
       pathSegment (result m (mkMem (pathSegment σ) (intersection σ) g))
       = pathSegment (result m σ).
Proof.
  intros Hm Htir.
  assert (E : forall τ, hasRefractive m = true ->
                totalInternalReflection m τ = true -> result m τ = reflects m τ).
  { intros τ Hr Ht. rewrite (refractive_runs m τ Hr), Ht. reflexivity. }
  rewrite (E σ Hm Htir). repeat split.
  intro g. rewrite (E _ Hm); [reflexivity | exact Htir].
Qed.

(** C9: the call leaves the intersection record, the pixel index and the
    bounce count as they were; the material is passed [const] and is not
    part of the memory the call can write. *)
Theorem C9_only_ray_and_color_change (m : Material F) (σ : Mem F) :
  intersection (result m σ) = intersection σ
  /\ pixelIndex (pathSegment (result m σ)) = pixelIndex (pathSegment σ)
  /\ remainingBounces (pathSegment (result m σ)) = remainingBounces (pathSegment σ).
Proof.
  rewrite scatterRay_runs.
  destruct (scatterDispatch_frame m (normalOf σ) (hitPoint σ) (mirror σ)
              (hemisphereSample σ) (choiceOf σ) (atDispatch σ))
    as (_ & Hi & Hp & Hb).
  rewrite Hi, Hp, Hb. repeat split.
Qed.

(** C10: whatever the material, the generator is left three draws further;
    the sampler is called first and consumes draws 0 and 1, draw 2 is the
    branch choice, and the dispatch that follows draws nothing. *)
Theorem C10_three_draws_in_order (m : Material F) (σ : Mem F) :
  rng (result m σ) = after 3 (rng σ)
  /\ shirleyRandomDirectionInHemisphere (normalOf σ) (rng σ)
     = (shirleyDirection (normalOf σ) (draw 0 (rng σ)) (draw 1 (rng σ)),
        after 2 (rng σ))
  /\ u01 (after 2 (rng σ)) = (draw 2 (rng σ), after 3 (rng σ))
  /\ result m σ
     = snd (scatterDispatch m (normalOf σ) (hitPoint σ) (mirror σ)
              (shirleyDirection (normalOf σ) (draw 0 (rng σ)) (draw 1 (rng σ)))
              (draw 2 (rng σ)) (atDispatch σ))
  /\ forall normal intersect dir_spec dir_diff choice (τ : Mem F),
       rng (snd (scatterDispatch m normal intersect dir_spec dir_diff choice τ))
       = rng τ.
Proof.
  split; [| split; [| split; [| split]]].
  - apply result_rng.
  - apply sampler_runs.
  - unfold draw. change (after 3 (rng σ)) with (snd (u01 (after 2 (rng σ)))).
    now destruct (u01 (after 2 (rng σ))).
  - apply scatterRay_runs.
  - intros. apply scatterDispatch_frame.
Qed.

End EveryArithmetic.

(** ** The refractive dispatch, in every ordered arithmetic *)

Lemma SFcompare_swap (a b : spec_float) :
  SFcompare b a = option_map CompOpp (SFcompare a b).
Proof.
  destruct a as [sa | sa | | sa ma ea], b as [sb | sb | | sb mb eb];
    try destruct sa; try destruct sb; try reflexivity;
    cbn [SFcompare option_map]; f_equal;
    rewrite (Z.compare_antisym ea eb);
    destruct (ea ?= eb)%Z; cbn [CompOpp]; try reflexivity;
    change (Pos.compare_cont Eq mb ma) with (Pos.compare mb ma);
    change (Pos.compare_cont Eq ma mb) with (Pos.compare ma mb);
    rewrite (Pos.compare_antisym ma mb);
    destruct (Pos.compare ma mb); reflexivity.
Qed.

#[global] Instance binary32_order (L : B32.Libm) :
  @FloatOrder B32.float (@B32.ops L).
Proof.
  constructor. intros a b. cbn [fleb fltb B32.ops]. unfold SFleb, SFltb.
  rewrite (SFcompare_swap a b).
  destruct (SFcompare a b) as [[| |] |]; cbn [option_map CompOpp];
    intros E; try reflexivity; discriminate E.
Qed.

#[global] Instance exact_order : @FloatOrder R Exact.ops.
Proof.
  constructor. intros a b. cbn [fleb fltb Exact.ops].
  unfold Exact.Rleb, Exact.Rltb.
  destruct (Rle_dec a b), (Rlt_dec b a); intros E;
    try reflexivity; try discriminate E; lra.
Qed.

Section RefractiveDispatch.
Context {F : Type} `{FloatOrder F} `{Uniform01 F} `{Constants F}.

Import glm.
Local Open Scope fl_scope.

(** C5: a refractive material takes [eta] from [indexOfRefraction] and
    [outside]; with [r] the reflectance as lines 131-132 compute it
    (Schlick's [r0 + (1 - r0) * (1 - cosThetaI)^5], [r0] being
    [((1 - eta) / (1 + eta))^2] evaluated as
    [(1 - eta) * (1 - eta) / (1 + eta) / (1 + eta)]), outside total
    internal reflection and when [choice > r] the call leaves the
    refraction vector, the colour multiplied by the material colour and the
    origin at [hitPoint - 0.001 * normal]; when [choice <= r] it leaves the
    mirror direction, the colour multiplied by the specular colour and the
    origin at [hitPoint + 0.001 * normal]; every refractive call ends in one
    of these two outcomes, with no 0.8 / 0.2 scale and no hemisphere
    sample.  This holds in every arithmetic, binary32 included. *)
Theorem C5_refractive_dispatch (m : Material F) (σ : Mem F) :
  hasRefractive m = true ->
  let eta := if outside (intersection σ) then indexOfRefraction m
             else lit 1 1 / indexOfRefraction m in
  let r0 := (lit 1 1 - eta) * (lit 1 1 - eta) / (lit 1 1 + eta) / (lit 1 1 + eta) in
  let r := r0 + (lit 1 1 - r0) * fpowi (lit 1 1 - cosThetaI σ) 5 in
  etaOf m σ = eta
  /\ ((eta * sinThetaI σ >? lit 1 1) = false ->
      (choiceOf σ >? r) = true ->
      result m σ
      = outcome σ (hitPoint σ - lit 1 1000 *: normalOf σ)%vec
                (refract (incoming σ) (normalOf σ) eta) (material_color m))
  /\ ((choiceOf σ <=? r) = true ->
      result m σ
      = outcome σ (hitPoint σ + lit 1 1000 *: normalOf σ)%vec
                (mirror σ) (specular_color (specular m)))
  /\ (result m σ = refracts m σ \/ result m σ = reflects m σ).
Proof.
  intros Hm eta r0 r.
  assert (Hrun := refractive_runs m σ Hm).
  change (reflectance (etaOf m σ) (cosThetaI σ)) with r in Hrun.
  change (totalInternalReflection m σ)
    with (eta * sinThetaI σ >? lit 1 1) in Hrun.
  split; [reflexivity | split; [| split]].
  - intros Hno Hgt. rewrite Hrun, Hno, Hgt. reflexivity.
  - intros Hle. apply fleb_not_gt in Hle. rewrite Hrun, Hle.
    destruct (eta * sinThetaI σ >? lit 1 1); reflexivity.
  - rewrite Hrun.
    destruct (eta * sinThetaI σ >? lit 1 1); [now right |].
    destruct (choiceOf σ >? r); [now left | now right].
Qed.
End RefractiveDispatch.

(** On a generator that replays a sequence, the count of draws consumed
    goes up by three. *)
Section Replay.
Context {F : Type} `{FloatOps F} `{Constants F}.

Lemma replay_after (k : nat) (τ : @RNG F (replay F)) :
  after k τ = mkTape (k + drawn τ) (draws τ).
Proof.
  induction k as [|k IH].
  - now destruct τ.
  - change (after (S k) τ) with (snd (tape_u01 (after k τ))).
    rewrite IH. reflexivity.
Qed.

Lemma replay_three_draws (m : Material F) (σ : Mem F) :
  drawn (rng (result m σ)) = (3 + drawn (rng σ))%nat.
Proof. rewrite result_rng, replay_after. reflexivity. Qed.
End Replay.

(** ** Binary32: what the stratified sampler returns *)

Section Binary32Facts.
Import B32.
Context {L : Libm}.

Import glm.
Local Open Scope fl_scope.

(** NaN absorbs every operation. *)
Lemma mul_NaN_r (x : float) : x * NaN = NaN.
Proof. destruct x; reflexivity. Qed.

Lemma mul_NaN_l (x : float) : NaN * x = NaN.
Proof. destruct x; reflexivity. Qed.

Lemma add_NaN_r (x : float) : x + NaN = NaN.
Proof. destruct x; reflexivity. Qed.

Lemma add_NaN_l (x : float) : NaN + x = NaN.
Proof. destruct x; reflexivity. Qed.

Lemma leb_NaN_l (x : float) : (NaN <=? x) = false.
Proof. destruct x; reflexivity. Qed.

Lemma leb_NaN_r (x : float) : (x <=? NaN) = false.
Proof. destruct x; reflexivity. Qed.

(** With [over] a NaN, every component of the returned vector is a NaN,
    whatever the normal, [up] and the values of [cos] and [sin]. *)
Lemma hemisphereDirection_NaN (normal : vec3 float) (up around : float) :
  hemisphereDirection normal up NaN around = vec NaN NaN NaN.
Proof.
  unfold hemisphereDirection, vadd, smul, vec; cbn [vx vy vz].
  now rewrite !mul_NaN_r, !mul_NaN_l, !add_NaN_r.
Qed.

(** C1, at the draws [s = 0.25], [t = 0.75]: [t] is not below [0.5], so the
    remapping of the second coordinate on its own value is
    [1.5 - sqrt(2 - 2 t)], the binary32 [13302541 * 2^-24]; line 51 tests
    [s] and returns [-0.5 + sqrt(2 t)], the binary32 [12159202 * 2^-24]. *)
Theorem C1_second_coordinate_tests_s :
  let s := lit 1 4 in
  let t := lit 3 4 in
  (t <? lit 1 2) = false
  /\ remapCoordinate t = S754_finite false 13302541 (-24)
  /\ snd (shirleyRemap s t) = - lit 1 2 + fsqrt (lit 2 1 * t)
  /\ snd (shirleyRemap s t) = S754_finite false 12159202 (-24)
  /\ snd (shirleyRemap s t) <> remapCoordinate t.
Proof.
  cbv zeta. repeat split; try (vm_compute; reflexivity).
  intro E. vm_compute in E. discriminate E.
Qed.

(** The draws [s = 0.75], [t = 0.9375]: [t_p] exceeds 1, so [up * up] does
    too and [over] is the square root of a negative number. *)
Lemma over_is_NaN :
  let t_p := snd (shirleyRemap (lit 3 4) (lit 15 16)) in
  let up := fsqrt t_p in
  (lit 1 1 <? t_p) = true /\ fsqrt (lit 1 1 - up * up) = NaN.
Proof. split; vm_compute; reflexivity. Qed.

Lemma shirleyDirection_NaN (normal : vec3 float) :
  shirleyDirection normal (lit 3 4) (lit 15 16) = vec NaN NaN NaN.
Proof.
  unfold shirleyDirection.
  destruct (shirleyRemap (lit 3 4) (lit 15 16)) as [s_p t_p] eqn:E.
  assert (Ht : t_p = snd (shirleyRemap (lit 3 4) (lit 15 16))) by now rewrite E.
  rewrite Ht.
  destruct over_is_NaN as [_ ->].
  apply hemisphereDirection_NaN.
Qed.

(** The draws [s = 0.25], [t = 0.0625] fail the other way: [t_p] is negative
    and [up] itself is a NaN. *)
Lemma shirleyDirection_NaN_below (normal : vec3 float) :
  (snd (shirleyRemap (lit 1 4) (lit 1 16)) <? lit 0 1) = true
  /\ shirleyDirection normal (lit 1 4) (lit 1 16) = vec NaN NaN NaN.
Proof.
  split; [vm_compute; reflexivity |].
  unfold shirleyDirection.
  destruct (shirleyRemap (lit 1 4) (lit 1 16)) as [s_p t_p] eqn:E.
  assert (Ht : t_p = snd (shirleyRemap (lit 1 4) (lit 1 16))) by now rewrite E.
  rewrite Ht.
  replace (fsqrt (lit 1 1
                  - fsqrt (snd (shirleyRemap (lit 1 4) (lit 1 16)))
                    * fsqrt (snd (shirleyRemap (lit 1 4) (lit 1 16)))))
    with NaN by (vm_compute; reflexivity).
  apply hemisphereDirection_NaN.
Qed.

(** C2, at the draws [0.75] and [0.9375] and any normal: the stratified
    sampler returns a vector of NaN, whose magnitude is within no tolerance
    of 1. *)
Theorem C2_stratified_sample_is_NaN (normal : vec3 float) (tol : float) :
  let d := fst (shirleyRandomDirectionInHemisphere normal
                  (tape (lit 3 4 :: lit 15 16 :: nil))) in
  d = vec NaN NaN NaN /\ length d = NaN /\ unitWithin tol d = false.
Proof.
  cbv zeta. rewrite sampler_runs. cbn [fst].
  change (draw 0 (tape (lit 3 4 :: lit 15 16 :: nil))) with (lit 3 4).
  change (draw 1 (tape (lit 3 4 :: lit 15 16 :: nil))) with (lit 15 16).
  rewrite shirleyDirection_NaN.
  split; [reflexivity | split; [reflexivity | ]].
  unfold unitWithin.
  change (length (vec NaN NaN NaN)) with NaN.
  change (fabs (NaN - lit 1 1)) with NaN.
  apply leb_NaN_l.
Qed.

(** C3, at the same draws and any normal: the dot product of the returned
    vector with the normal is a NaN, and [dot(d, normal) >= 0] is false. *)
Theorem C3_stratified_sample_not_in_hemisphere (normal : vec3 float) :
  let d := fst (shirleyRandomDirectionInHemisphere normal
                  (tape (lit 3 4 :: lit 15 16 :: nil))) in
  dot d normal = NaN /\ inHemisphere normal d = false.
Proof.
  cbv zeta. rewrite sampler_runs. cbn [fst].
  change (draw 0 (tape (lit 3 4 :: lit 15 16 :: nil))) with (lit 3 4).
  change (draw 1 (tape (lit 3 4 :: lit 15 16 :: nil))) with (lit 15 16).
  rewrite shirleyDirection_NaN.
  assert (E : dot (vec NaN NaN NaN) normal = NaN).
  { unfold dot, vec; cbn [vx vy vz]. now rewrite !mul_NaN_l. }
  unfold inHemisphere. rewrite E. split; [reflexivity | apply leb_NaN_r].
Qed.

(** Binary32 and the constants of the dispatch: [1.f - 0.f] is [1.f] and
    [0.5f * 1.f] is [0.5f], but [1.f - 0.8f] is the float below [0.2f]. *)
Lemma binary32_diffuse_scales :
  lit 1 2 * (lit 1 1 - lit 0 1) = lit 1 2
  /\ lit 1 1 - lit 8 10 = S754_finite false 13421772 (-26)
  /\ lit 2 10 = S754_finite false 13421773 (-26).
Proof. repeat split; vm_compute; reflexivity. Qed.
End Binary32Facts.

(** In binary32 too the grey material multiplies the colour by
    [(0.5, 0.5, 0.5)] exactly. *)
Section Binary32Diffuse.
Import B32.
Context {L : Libm} `{Uniform01 float} `{Constants float}.

Import glm.
Local Open Scope fl_scope.

Lemma binary32_pure_diffuse (m : Material float) (σ : Mem float) :
  hasReflective m = false ->
  hasRefractive m = false ->
  material_color m = vec (lit 1 2) (lit 1 2) (lit 1 2) ->
  color (pathSegment (result m σ))
  = (color (pathSegment σ) * vec (lit 1 2) (lit 1 2) (lit 1 2))%vec.
Proof.
  intros Hm Hr Hc. rewrite (diffuse_runs m σ Hr Hm).
  unfold bouncesDiffuse, outcome; cbn [pathSegment color].
  rewrite Hc. unfold vmuls, vec; cbn [vx vy vz].
  destruct binary32_diffuse_scales as [-> _]. reflexivity.
Qed.
End Binary32Diffuse.

(** ** Binary32: the diffuse bounce *)

Section Binary32Bounces.
Import B32.
Context {L : Libm}.

Import glm.
Local Open Scope fl_scope.

(** With the first two draws [0.75] and [0.9375], the hemisphere sample
    [scatterRay] holds in [dir_diff] is three NaN. *)
Lemma hemisphereSample_NaN (p : PathSegment float) (i : ShadeableIntersection float)
    (ch : float) :
  hemisphereSample (mkMem p i (tape (lit 3 4 :: lit 15 16 :: ch :: nil)))
  = vec NaN NaN NaN.
Proof. apply shirleyDirection_NaN. Qed.

Lemma NaN_direction_fails (normal : vec3 float) (tol : float) :
  unitWithin tol (vec NaN NaN NaN) = false
  /\ inHemisphere normal (vec NaN NaN NaN) = false.
Proof.
  split.
  - unfold unitWithin.
    change (fabs (length (vec NaN NaN NaN) - lit 1 1)) with NaN.
    apply leb_NaN_l.
  - unfold inHemisphere, dot, vec; cbn [vx vy vz].
    rewrite !mul_NaN_l, !add_NaN_r. apply leb_NaN_r.
Qed.

(** C6, on any reflective, non-refractive material, path segment and
    intersection, with the draws [0.75], [0.9375] and [choice = 0.1]:
    [choice > 0.2f] is false, the diffuse branch is taken and the colour is
    multiplied by [material.color * (1.f - 0.8f)], but the direction left in
    the ray is three NaN: no unit vector, in no hemisphere. *)
Theorem C6_diffuse_bounce_is_NaN (c sc : vec3 float) (ior : float)
    (p : PathSegment float) (i : ShadeableIntersection float) (tol : float) :
  let m := mkMaterial c (mkSpecular sc) true false ior in
  let σ := mkMem p i (tape (lit 3 4 :: lit 15 16 :: lit 1 10 :: nil)) in
  let d := direction (ray (pathSegment (result m σ))) in
  (choiceOf σ >? lit 2 10) = false
  /\ color (pathSegment (result m σ))
     = (color p * (c :* (lit 1 1 - lit 8 10)%fl))%vec
  /\ d = vec NaN NaN NaN
  /\ unitWithin tol d = false
  /\ inHemisphere (surfaceNormal i) d = false.
Proof.
  intros m σ d.
  assert (Hc : (choiceOf σ >? lit 2 10) = false) by (vm_compute; reflexivity).
  assert (Hrun : result m σ = bouncesDiffuse m σ (lit 1 1 - lit 8 10)).
  { rewrite (reflective_runs m σ eq_refl eq_refl), Hc. reflexivity. }
  assert (Hd : d = vec NaN NaN NaN).
  { unfold d. rewrite Hrun. apply hemisphereSample_NaN. }
  split; [exact Hc | split; [rewrite Hrun; reflexivity | split; [exact Hd |]]].
  rewrite Hd. apply NaN_direction_fails.
Qed.

(** C8, on the material of colour [(0.5, 0.5, 0.5)] with neither flag, any
    path segment and intersection, with the draws [0.75], [0.9375] and any
    third draw: the colour is multiplied by [(0.5, 0.5, 0.5)] and the origin
    is [hitPoint + 0.001 * normal], as stated, but the direction left in the
    ray is three NaN: no unit vector, in no hemisphere. *)
Theorem C8_diffuse_direction_is_NaN (sc : vec3 float) (ior ch : float)
    (p : PathSegment float) (i : ShadeableIntersection float) (tol : float) :
  let m := mkMaterial (vec (lit 1 2) (lit 1 2) (lit 1 2)) (mkSpecular sc)
                      false false ior in
  let σ := mkMem p i (tape (lit 3 4 :: lit 15 16 :: ch :: nil)) in
  let d := direction (ray (pathSegment (result m σ))) in
  color (pathSegment (result m σ))
  = (color p * vec (lit 1 2) (lit 1 2) (lit 1 2))%vec
  /\ origin (ray (pathSegment (result m σ)))
     = (origin (ray p) + t i *: direction (ray p)
        + lit 1 1000 *: surfaceNormal i)%vec
  /\ d = vec NaN NaN NaN
  /\ unitWithin tol d = false
  /\ inHemisphere (surfaceNormal i) d = false.
Proof.
  intros m σ d.
  assert (Hrun : result m σ = bouncesDiffuse m σ (lit 1 1 - lit 0 1))
    by apply (diffuse_runs m σ eq_refl eq_refl).
  assert (Hd : d = vec NaN NaN NaN).
  { unfold d. rewrite Hrun. apply hemisphereSample_NaN. }
  split; [| split; [rewrite Hrun; reflexivity | split; [exact Hd |]]].
  - apply (binary32_pure_diffuse m σ); reflexivity.
  - rewrite Hd. apply NaN_direction_fails.
Qed.

(** Binary32 and the two ways to write [r0] at [eta = 2]: line 131 gives
    [14913081 * 2^-27], the square of the quotient gives the next float. *)
Lemma binary32_r0_parenthesisation :
  let eta := lit 2 1 in
  (lit 1 1 - eta) * (lit 1 1 - eta) / (lit 1 1 + eta) / (lit 1 1 + eta)
  = S754_finite false 14913081 (-27)
  /\ (lit 1 1 - eta) / (lit 1 1 + eta) * ((lit 1 1 - eta) / (lit 1 1 + eta))
     = S754_finite false 14913082 (-27).
Proof. split; vm_compute; reflexivity. Qed.
End Binary32Bounces.

(** ** The dispatch in exact arithmetic *)

Section ExactFacts.
Import Exact.
Context `{Uniform01 R} `{Constants R}.

Import glm.
Local Open Scope R_scope.

Lemma Rltb_true (a b : R) : Rltb a b = true <-> a < b.
Proof. unfold Rltb. destruct (Rlt_dec a b); split; intros; try easy. Qed.

Lemma Rltb_false (a b : R) : Rltb a b = false <-> b <= a.
Proof.
  unfold Rltb. destruct (Rlt_dec a b); split; intros; try easy; lra.
Qed.

Lemma vec3_eq (a b : vec3 R) :
  vx a = vx b -> vy a = vy b -> vz a = vz b -> a = b.
Proof. destruct a, b; simpl; intros; subst; reflexivity. Qed.

(** Line 131 computes the [r0] of Schlick's formula. *)
Lemma reflectance_is_schlick (eta cosTheta : R) :
  reflectance eta cosTheta = schlick eta cosTheta.
Proof.
  unfold reflectance, schlick; simpl. unfold Rdiv.
  replace ((1 * / 1 - eta) * (1 * / 1 - eta) * / (1 * / 1 + eta) * / (1 * / 1 + eta))
    with ((1 * / 1 - eta) * / (1 * / 1 + eta) * ((1 * / 1 - eta) * / (1 * / 1 + eta)))
    by ring.
  reflexivity.
Qed.

Lemma vmuls_one_minus (v : vec3 R) (a : Z) (b : positive) (c : R) :
  1 - IZR a / IZR (Zpos b) = c -> (v :* (lit 1 1 - lit a b)%fl)%vec = (v :* c)%vec.
Proof.
  intros E. unfold vmuls. exact_ops.
  replace (1 / 1 - IZR a / IZR (Zpos b)) with c by (rewrite <- E; lra).
  reflexivity.
Qed.

End ExactFacts.

(** ** The fixed split of the reflective material *)

Section ExactSplit.
Import Exact.
Context `{Uniform01 R} `{Constants R}.

Import glm.
Local Open Scope R_scope.

(** C7, as amended: for a reflective, non-refractive material the specular
    branch is taken for [choice] in [(0.2, 1)] and scales the colour by 0.8,
    the length of that interval; the diffuse branch is taken for [choice] in
    [[0, 0.2]] and scales it by 0.2, the length of that one.  The scale of a
    branch is the probability of the branch, that is the complement of the
    probability of the other branch. *)
Theorem C7_scale_is_branch_probability (m : Material R) (σ : Mem R) :
  hasRefractive m = false ->
  hasReflective m = true ->
  (2 / 10 < choiceOf σ < 1 ->
   result m σ = bouncesSpecular m σ (uniformProbability (2 / 10) 1))
  /\ (0 <= choiceOf σ <= 2 / 10 ->
      result m σ = bouncesDiffuse m σ (uniformProbability 0 (2 / 10)))
  /\ uniformProbability (2 / 10) 1 = 8 / 10
  /\ uniformProbability 0 (2 / 10) = 2 / 10
  /\ uniformProbability (2 / 10) 1 = 1 - uniformProbability 0 (2 / 10).
Proof.
  intros Hr Hm. rewrite (reflective_runs m σ Hr Hm).
  unfold uniformProbability.
  split; [| split; [| repeat split; lra]]; intros Hc.
  - replace (fltb (lit 2 10) (choiceOf σ)) with true
      by (symmetry; apply Rltb_true; exact_ops; lra).
    unfold bouncesSpecular. do 2 f_equal. exact_ops. lra.
  - replace (fltb (lit 2 10) (choiceOf σ)) with false
      by (symmetry; apply Rltb_false; exact_ops; lra).
    unfold bouncesDiffuse.
    rewrite (vmuls_one_minus (material_color m) 8 10 (c := 2 / 10 - 0)) by lra.
    reflexivity.
Qed.
End ExactSplit.


(** ** Exact arithmetic: the tangent frame and the baseline sampler *)

Section ExactFrame.
Import Exact.
Context `{Uniform01 R}.

Import glm.
Local Open Scope R_scope.

Ltac components :=
  unfold dot, cross, normalize, inversesqrt, vadd, vsub, vmul, smul, vmuls, ivec3;
  cbn [vx vy vz]; exact_ops.

(** Lagrange's identity, and the cross product is orthogonal to its
    arguments. *)
Lemma dot_cross_cross (a b : vec3 R) :
  dot (cross a b) (cross a b) = dot a a * dot b b - dot a b * dot a b.
Proof. components. ring. Qed.

Lemma dot_cross_l (a b : vec3 R) : dot (cross a b) a = 0.
Proof. components. ring. Qed.

Lemma dot_cross_r (a b : vec3 R) : dot (cross a b) b = 0.
Proof. components. ring. Qed.

Lemma dot_vmuls_l (v w : vec3 R) (k : R) : dot (v :* k)%vec w = k * dot v w.
Proof. components. ring. Qed.

Lemma dot_vmuls_both (v : vec3 R) (k : R) :
  dot (v :* k)%vec (v :* k)%vec = k * k * dot v v.
Proof. components. ring. Qed.

Lemma dot_combination (n p q : vec3 R) (u a b : R) :
  let d := (u *: n + a *: p + b *: q)%vec in
  dot d d = u * u * dot n n + a * a * dot p p + b * b * dot q q
            + 2 * u * a * dot p n + 2 * u * b * dot q n + 2 * a * b * dot q p
  /\ dot d n = u * dot n n + a * dot p n + b * dot q n.
Proof. split; components; ring. Qed.

Lemma dot_normalize (v : vec3 R) :
  0 < dot v v -> dot (normalize v) (normalize v) = 1.
Proof.
  intros Hv. unfold normalize. rewrite dot_vmuls_both.
  unfold inversesqrt. exact_ops.
  assert (Hs : 0 < sqrt (dot v v)) by now apply sqrt_lt_R0.
  assert (Hq : sqrt (dot v v) * sqrt (dot v v) = dot v v)
    by (apply sqrt_sqrt; lra).
  rewrite <- Hq at 3. field. lra.
Qed.

Lemma normalize_unit (v : vec3 R) : dot v v = 1 -> normalize v = v.
Proof.
  intros Hv. unfold normalize, inversesqrt. rewrite Hv. exact_ops.
  rewrite sqrt_1. destruct v as [x y z]. components.
  f_equal; lra.
Qed.

Lemma sqrt_third_sq : sqrt (1 / 3) * sqrt (1 / 3) = 1 / 3.
Proof. apply sqrt_sqrt. lra. Qed.

Lemma below_sqrt_third (x : R) : Rabs x < sqrt (1 / 3) -> x * x < 1 / 3.
Proof.
  intros Hx. rewrite <- sqrt_third_sq.
  assert (0 <= Rabs x) by apply Rabs_pos.
  replace (x * x) with (Rabs x * Rabs x)
    by (unfold Rabs; destruct (Rcase_abs x); ring).
  nra.
Qed.

Lemma above_sqrt_third (x : R) : sqrt (1 / 3) <= Rabs x -> 1 / 3 <= x * x.
Proof.
  intros Hx. rewrite <- sqrt_third_sq.
  assert (0 <= sqrt (1 / 3)) by apply sqrt_pos.
  replace (x * x) with (Rabs x * Rabs x)
    by (unfold Rabs; destruct (Rcase_abs x); ring).
  nra.
Qed.

(** The edge case of the frame: the chosen axis is never parallel to a unit
    normal. *)
Lemma directionNotNormal_not_parallel (normal : vec3 R) :
  dot normal normal = 1 ->
  0 < dot (cross normal (directionNotNormal normal))
          (cross normal (directionNotNormal normal)).
Proof.
  intros Hn. rewrite dot_cross_cross, Hn.
  unfold directionNotNormal. cbn [SQRT_OF_ONE_THIRD constants]. exact_ops.
  destruct normal as [x y z]; cbn [vx vy vz].
  assert (Hn' : x * x + y * y + z * z = 1) by (revert Hn; components; lra).
  destruct (Rltb (Rabs x) (sqrt (1 / 3))) eqn:Ex.
  - apply Rltb_true, below_sqrt_third in Ex. components. nra.
  - apply Rltb_false, above_sqrt_third in Ex.
    destruct (Rltb (Rabs y) (sqrt (1 / 3))) eqn:Ey.
    + apply Rltb_true, below_sqrt_third in Ey. components. nra.
    + apply Rltb_false, above_sqrt_third in Ey. components. nra.
Qed.

(** With a unit normal and [up^2 + over^2 = 1] the returned vector has
    length 1 and its component along the normal is [up]. *)
Lemma hemisphereDirection_unit (normal : vec3 R) (up over around : R) :
  dot normal normal = 1 ->
  up * up + over * over = 1 ->
  let d := hemisphereDirection normal up over around in
  dot d d = 1 /\ dot d normal = up.
Proof.
  intros Hn Huo. unfold hemisphereDirection.
  set (c := cross normal (directionNotNormal normal)).
  assert (Hc : 0 < dot c c) by now apply directionNotNormal_not_parallel.
  set (p1 := normalize c).
  assert (H11 : dot p1 p1 = 1) by now apply dot_normalize.
  assert (H1n : dot p1 normal = 0).
  { unfold p1, normalize. rewrite dot_vmuls_l. unfold c.
    rewrite dot_cross_l. ring. }
  assert (Hw : dot (cross normal p1) (cross normal p1) = 1).
  { rewrite dot_cross_cross, Hn, H11.
    replace (dot normal p1) with (dot p1 normal) by (components; ring).
    rewrite H1n. ring. }
  rewrite (normalize_unit Hw).
  set (p2 := cross normal p1).
  assert (H2n : dot p2 normal = 0) by apply dot_cross_l.
  assert (H21 : dot p2 p1 = 0) by apply dot_cross_r.
  fold p2 in Hw.
  assert (Hcs := sin2_cos2 around). unfold Rsqr in Hcs.
  cbv zeta.
  destruct (dot_combination normal p1 p2 up (fcos around * over)%fl
              (fsin around * over)%fl) as [-> ->].
  rewrite Hn, H11, Hw, H1n, H2n, H21. exact_ops.
  split; nra.
Qed.

(** In exact arithmetic the baseline sampler does return a unit vector in
    the hemisphere of a unit normal: the property the stratified sampler
    misses in binary32. *)
Lemma baseline_unit_in_hemisphere (normal : vec3 R) (g : RNG) :
  dot normal normal = 1 ->
  0 <= draw 0 g <= 1 ->
  let d := fst (calculateRandomDirectionInHemisphere normal g) in
  length d = 1 /\ inHemisphere normal d = true.
Proof.
  intros Hn Hu. rewrite baseline_runs. cbn [fst]. cbv zeta.
  set (u := draw 0 g) in *.
  assert (Hup : fsqrt u * fsqrt u = u) by (exact_ops; apply sqrt_sqrt; lra).
  assert (Huo : fsqrt u * fsqrt u
                + fsqrt (lit 1 1 - fsqrt u * fsqrt u)%fl
                  * fsqrt (lit 1 1 - fsqrt u * fsqrt u)%fl = 1).
  { exact_ops. rewrite Hup. rewrite sqrt_sqrt; lra. }
  destruct (hemisphereDirection_unit (draw 1 g * TWO_PI)%fl Hn Huo)
    as [Hdd Hdn].
  split.
  - unfold length. rewrite Hdd. exact_ops. apply sqrt_1.
  - unfold inHemisphere. rewrite Hdn. exact_ops.
    unfold Rleb. destruct (Rle_dec (0 / 1) (sqrt u)) as [|Hneg]; [reflexivity|].
    exfalso. apply Hneg. replace (0 / 1) with 0 by lra. apply sqrt_pos.
Qed.

(** So does the stratified one as long as the remapped [t_p] stays within
    [[0, 1]]. *)
Lemma stratified_unit_when_in_range (normal : vec3 R) (s t : R) :
  dot normal normal = 1 ->
  0 <= snd (shirleyRemap s t) <= 1 ->
  length (shirleyDirection normal s t) = 1.
Proof.
  intros Hn Ht. unfold shirleyDirection.
  destruct (shirleyRemap s t) as [s_p t_p]. cbn [snd] in Ht.
  assert (Hup : fsqrt t_p * fsqrt t_p = t_p) by (exact_ops; apply sqrt_sqrt; lra).
  assert (Huo : fsqrt t_p * fsqrt t_p
                + fsqrt (lit 1 1 - fsqrt t_p * fsqrt t_p)%fl
                  * fsqrt (lit 1 1 - fsqrt t_p * fsqrt t_p)%fl = 1).
  { exact_ops. rewrite Hup. rewrite sqrt_sqrt; lra. }
  destruct (hemisphereDirection_unit (s_p * TWO_PI)%fl Hn Huo)
    as [Hdd _].
  unfold length. rewrite Hdd. exact_ops. apply sqrt_1.
Qed.
End ExactFrame.

(** ** The sample inputs *)

Section Samples.
Import Exact.
Import glm.
Local Open Scope R_scope.

Lemma grazing_choice : choiceOf grazing = 1 / 2.
Proof. reflexivity. Qed.

Lemma grazing_sinThetaI : sinThetaI grazing = 1.
Proof.
  unfold sinThetaI, cosThetaI, dot, vneg, incoming, normalOf, grazing.
  cbn [pathSegment intersection ray direction surfaceNormal vx vy vz].
  exact_ops.
  replace (1 / 1 - (- (1) * 0 + - 0 * 0 + - 0 * 1) * (- (1) * 0 + - 0 * 0 + - 0 * 1))
    with 1 by lra.
  apply sqrt_1.
Qed.

Lemma grazing_total_internal_reflection :
  totalInternalReflection glass grazing = true.
Proof.
  unfold totalInternalReflection. rewrite grazing_sinThetaI.
  apply Rltb_true. unfold etaOf, glass, grazing.
  cbn [intersection outside indexOfRefraction]. exact_ops. lra.
Qed.

(** C7, as the claim states it, fails on the glossy material with
    [choice = 0.5]: the specular branch is taken, its probability is 0.8,
    and the colour is not scaled by the complement 0.2. *)
Lemma C7_scale_is_not_complement :
  hasRefractive glossy = false
  /\ hasReflective glossy = true
  /\ 2 / 10 < choiceOf grazing < 1
  /\ color (pathSegment (result glossy grazing))
     = mkvec3 (8 / 10) (8 / 10) (8 / 10)
  /\ result glossy grazing
     <> bouncesSpecular glossy grazing (1 - uniformProbability (2 / 10) 1).
Proof.
  assert (Hrun : result glossy grazing = bouncesSpecular glossy grazing (lit 8 10)).
  { rewrite (reflective_runs glossy grazing eq_refl eq_refl).
    replace (fltb (lit 2 10) (choiceOf grazing)) with true
      by (symmetry; apply Rltb_true; rewrite grazing_choice; exact_ops; lra).
    reflexivity. }
  split; [reflexivity | split; [reflexivity | split; [| split]]].
  - rewrite grazing_choice. lra.
  - rewrite Hrun. unfold bouncesSpecular, outcome, glossy, grazing, white.
    cbn [pathSegment color specular specular_color].
    apply vec3_eq; cbn [vx vy vz vmul vmuls]; exact_ops; lra.
  - rewrite Hrun.
    intro E.
    apply (f_equal (fun τ => vx (color (pathSegment τ)))) in E.
    unfold bouncesSpecular, outcome, uniformProbability, glossy, grazing, white in E.
    cbn [pathSegment color specular specular_color vx vmul vmuls] in E.
    exact_ops. lra.
Qed.

(** The grazing ray on glass is under total internal reflection. *)
Lemma C4_witness :
  result glass grazing = reflects glass grazing
  /\ direction (ray (pathSegment (result glass grazing))) = mirror grazing
  /\ color (pathSegment (result glass grazing))
     = (color (pathSegment grazing) * specular_color (specular glass))%vec
  /\ forall g : RNG,
       pathSegment (result glass (mkMem (pathSegment grazing) (intersection grazing) g))
       = pathSegment (result glass grazing).
Proof.
  apply (C4_total_internal_reflection_reflects glass grazing).
  - reflexivity.
  - exact grazing_total_internal_reflection.
Defined.

Lemma C7_witness :
  hasRefractive glossy = false
  /\ hasReflective glossy = true
  /\ result glossy grazing
     = bouncesSpecular glossy grazing (uniformProbability (2 / 10) 1).
Proof.
  split; [reflexivity | split; [reflexivity |]].
  apply (C7_scale_is_branch_probability glossy grazing);
    [reflexivity | reflexivity |].
  rewrite grazing_choice. lra.
Defined.

End Samples.

(** * More of the code *)

(** ** The tangent frame and the samplers, in exact arithmetic *)

Section ExactSamplers.
Import Exact.
Context `{Uniform01 R}.

Import glm.
Local Open Scope R_scope.

(** X1: for a unit normal, the axis selected on lines 25-31 is never close
    to parallel to it: the squared length of [cross(normal, axis)], the
    squared sine of their angle, is at least 2/3. *)
Theorem frame_axis_far_from_normal (normal : vec3 R) :
  dot normal normal = 1 ->
  2 / 3 <= dot (cross normal (directionNotNormal normal))
               (cross normal (directionNotNormal normal)).
Proof.
  intros Hn. rewrite dot_cross_cross, Hn.
  unfold directionNotNormal. cbn [SQRT_OF_ONE_THIRD constants]. exact_ops.
  destruct normal as [x y z].
  assert (Hn' : x * x + y * y + z * z = 1) by (by_components; exact_ops; lra).
  cbn [vx vy vz].
  destruct (Rltb (Rabs x) (sqrt (1 / 3))) eqn:Ex.
  - apply Rltb_true, below_sqrt_third in Ex. by_components. exact_ops. nra.
  - apply Rltb_false, above_sqrt_third in Ex.
    destruct (Rltb (Rabs y) (sqrt (1 / 3))) eqn:Ey.
    + apply Rltb_true, below_sqrt_third in Ey. by_components. exact_ops. nra.
    + apply Rltb_false, above_sqrt_third in Ey. by_components. exact_ops. nra.
Qed.

(** X2: for a unit normal, lines 34-37 build an orthonormal frame: the two
    perpendicular directions have length 1, are orthogonal to the normal and
    to each other, and the second normalisation changes nothing. *)
Theorem tangent_frame_orthonormal (normal : vec3 R) :
  dot normal normal = 1 ->
  let p1 := perpendicularDirection1 normal in
  let p2 := perpendicularDirection2 normal in
  dot p1 p1 = 1 /\ dot p2 p2 = 1
  /\ dot p1 normal = 0 /\ dot p2 normal = 0 /\ dot p1 p2 = 0
  /\ p2 = cross normal p1.
Proof.
  intros Hn p1 p2.
  assert (Hc : 0 < dot (cross normal (directionNotNormal normal))
                       (cross normal (directionNotNormal normal)))
    by now apply directionNotNormal_not_parallel.
  assert (H11 : dot p1 p1 = 1) by now apply dot_normalize.
  assert (H1n : dot p1 normal = 0).
  { unfold p1, perpendicularDirection1, normalize.
    rewrite dot_vmuls_l, dot_cross_l. ring. }
  assert (Hw : dot (cross normal p1) (cross normal p1) = 1).
  { rewrite dot_cross_cross, Hn, H11.
    replace (dot normal p1) with (dot p1 normal)
      by (by_components; exact_ops; ring).
    rewrite H1n. ring. }
  assert (E2 : p2 = cross normal p1) by apply (normalize_unit Hw).
  rewrite E2. repeat split; try assumption.
  - apply dot_cross_l.
  - replace (dot p1 (cross normal p1)) with (dot (cross normal p1) p1)
      by (by_components; exact_ops; ring).
    apply dot_cross_r.
Qed.

(** X3: for a unit normal and a first draw [u] in [[0, 1]], the baseline
    sampler returns a vector of length 1 whose cosine with the normal is
    [sqrt u], the [up] that line 15 comments as [cos(theta)]. *)
Theorem baseline_sample_cosine (normal : vec3 R) (g : RNG) :
  dot normal normal = 1 ->
  0 <= draw 0 g <= 1 ->
  let d := fst (calculateRandomDirectionInHemisphere normal g) in
  dot d d = 1 /\ dot d normal = sqrt (draw 0 g).
Proof.
  intros Hn Hu. rewrite baseline_runs. cbn [fst]. cbv zeta.
  set (u := draw 0 g) in *.
  assert (Hup : fsqrt u * fsqrt u = u) by (exact_ops; apply sqrt_sqrt; lra).
  assert (Huo : fsqrt u * fsqrt u
                + fsqrt (lit 1 1 - fsqrt u * fsqrt u)%fl
                  * fsqrt (lit 1 1 - fsqrt u * fsqrt u)%fl = 1).
  { exact_ops. rewrite Hup. rewrite sqrt_sqrt; lra. }
  exact (hemisphereDirection_unit (draw 1 g * TWO_PI)%fl Hn Huo).
Qed.

(** X4: for draws [s], [t] in [[0, 1)], the remapped [t_p] of line 51 lies
    in [[0, 1]], where [sqrt(t_p)] and [sqrt(1 - t_p)] are defined, exactly
    when [s < 0.5] and [t >= 1/8], or [s >= 0.5] and [t <= 7/8]. *)
Theorem stratified_remap_in_range (s t : R) :
  0 <= s < 1 ->
  0 <= t < 1 ->
  0 <= snd (shirleyRemap s t) <= 1
  <-> (s < 1 / 2 /\ 1 / 8 <= t) \/ (1 / 2 <= s /\ t <= 7 / 8).
Proof.
  intros Hs Ht. rewrite shirleyRemap_second. exact_ops.
  destruct (Rltb s (1 / 2)) eqn:Es.
  - apply Rltb_true in Es.
    assert (Hy : 0 <= sqrt (2 / 1 * t)) by apply sqrt_pos.
    assert (Hyy : sqrt (2 / 1 * t) * sqrt (2 / 1 * t) = 2 / 1 * t)
      by (apply sqrt_sqrt; lra).
    split.
    + intros [Hlo Hhi]. left. split; [lra | nra].
    + intros [[_ Hlo] | [Hge _]]; [| lra]. split; nra.
  - apply Rltb_false in Es.
    assert (Hy : 0 <= sqrt (2 / 1 - 2 / 1 * t)) by apply sqrt_pos.
    assert (Hyy : sqrt (2 / 1 - 2 / 1 * t) * sqrt (2 / 1 - 2 / 1 * t)
                  = 2 / 1 - 2 / 1 * t)
      by (apply sqrt_sqrt; lra).
    split.
    + intros [Hlo Hhi]. right. split; [lra | nra].
    + intros [[Hlt _] | [_ Hhi]]; [lra |]. split; nra.
Qed.

(** X5: for a unit normal, whenever [t_p] lies in [[0, 1]] the stratified
    sampler returns a vector of length 1 whose cosine with the normal is
    [sqrt(t_p)]. *)
Theorem stratified_sample_cosine (normal : vec3 R) (s t : R) :
  dot normal normal = 1 ->
  0 <= snd (shirleyRemap s t) <= 1 ->
  let d := shirleyDirection normal s t in
  dot d d = 1 /\ dot d normal = sqrt (snd (shirleyRemap s t)).
Proof.
  intros Hn Ht. unfold shirleyDirection.
  destruct (shirleyRemap s t) as [s_p t_p]. cbn [snd] in *.
  assert (Hup : fsqrt t_p * fsqrt t_p = t_p) by (exact_ops; apply sqrt_sqrt; lra).
  assert (Huo : fsqrt t_p * fsqrt t_p
                + fsqrt (lit 1 1 - fsqrt t_p * fsqrt t_p)%fl
                  * fsqrt (lit 1 1 - fsqrt t_p * fsqrt t_p)%fl = 1).
  { exact_ops. rewrite Hup. rewrite sqrt_sqrt; lra. }
  exact (hemisphereDirection_unit (s_p * TWO_PI)%fl Hn Huo).
Qed.
End ExactSamplers.

(** ** The directions [scatterRay] leaves, in exact arithmetic *)

Section ExactDirections.
Import Exact.
Context `{Uniform01 R} `{Constants R}.

Import glm.
Local Open Scope R_scope.

Lemma dot_comm (a b : vec3 R) : dot a b = dot b a.
Proof. by_components. exact_ops. ring. Qed.

Lemma reflect_dots (I N : vec3 R) :
  dot (reflect I N) (reflect I N)
  = dot I I - 4 * dot N I * dot N I + 4 * dot N I * dot N I * dot N N
  /\ dot (reflect I N) N = dot I N - 2 * dot N I * dot N N.
Proof. split; by_components; exact_ops; field. Qed.

(** X6: for a unit incoming direction and a unit normal, [dir_spec] of line
    118 is the reflection itself (the normalisation changes nothing), has
    length 1 and carries the opposite normal component: a ray that arrives
    against the normal leaves on the normal's side. *)
Theorem mirror_is_unit_reflection (σ : Mem R) :
  dot (incoming σ) (incoming σ) = 1 ->
  dot (normalOf σ) (normalOf σ) = 1 ->
  mirror σ = reflect (incoming σ) (normalOf σ)
  /\ dot (mirror σ) (mirror σ) = 1
  /\ dot (mirror σ) (normalOf σ) = - dot (incoming σ) (normalOf σ).
Proof.
  intros HI HN.
  destruct (reflect_dots (incoming σ) (normalOf σ)) as [Hrr Hrn].
  rewrite HI, HN in Hrr. rewrite HN in Hrn.
  assert (Hu : dot (reflect (incoming σ) (normalOf σ))
                   (reflect (incoming σ) (normalOf σ)) = 1) by lra.
  assert (E : mirror σ = reflect (incoming σ) (normalOf σ))
    by apply (normalize_unit Hu).
  rewrite E. split; [reflexivity | split; [exact Hu |]].
  rewrite Hrn, (dot_comm (normalOf σ) (incoming σ)). lra.
Qed.

End ExactDirections.

(** ** Refraction and reflectance, in exact arithmetic *)

Section ExactRefraction.
Import Exact.
Context `{Uniform01 R} `{Constants R}.

Import glm.
Local Open Scope R_scope.

Lemma sinThetaI_le_1 (σ : Mem R) : 0 <= sinThetaI σ <= 1.
Proof.
  unfold sinThetaI. exact_ops. split; [apply sqrt_pos |].
  rewrite <- sqrt_1 at 3. apply sqrt_le_1_alt.
  assert (0 <= cosThetaI σ * cosThetaI σ) by nra. lra.
Qed.

(** X9: whatever the vectors, when the ratio of line 126-129 is at most 1
    the must-reflect branch of line 133 is not taken; a refractive material
    then refracts or reflects on [choice > r] alone. *)
Theorem no_must_reflect_when_ratio_at_most_one (m : Material R) (σ : Mem R) :
  etaOf m σ <= 1 ->
  totalInternalReflection m σ = false
  /\ (hasRefractive m = true ->
      result m σ
      = if fltb (reflectance (etaOf m σ) (cosThetaI σ)) (choiceOf σ)
        then refracts m σ else reflects m σ).
Proof.
  intros Heta.
  assert (Ht : totalInternalReflection m σ = false).
  { unfold totalInternalReflection. exact_ops. apply Rltb_false.
    destruct (sinThetaI_le_1 σ) as [H0s Hs1].
    destruct (Rle_or_lt (etaOf m σ) 0); nra. }
  split; [exact Ht |].
  intros Hm. rewrite (refractive_runs m σ Hm), Ht. reflexivity.
Qed.

(** X10: for a non-negative ratio and a cosine in [[0, 1]], the reflectance
    of lines 131-132 lies between [r0] and 1, with [r0] in [[0, 1]]; it is
    [r0] at normal incidence and 1 at grazing incidence. *)
Theorem reflectance_bounds (eta c : R) :
  0 <= eta ->
  0 <= c <= 1 ->
  let r0 := ((1 - eta) / (1 + eta)) ^ 2 in
  0 <= r0 <= 1
  /\ r0 <= reflectance eta c <= 1
  /\ reflectance eta 1 = r0
  /\ reflectance eta 0 = 1.
Proof.
  intros Heta Hc r0.
  assert (Hq : -1 <= (1 - eta) / (1 + eta) <= 1).
  { split.
    - apply Rmult_le_reg_r with (1 + eta); [lra |].
      unfold Rdiv. rewrite Rmult_assoc, Rinv_l by lra. lra.
    - apply Rmult_le_reg_r with (1 + eta); [lra |].
      unfold Rdiv. rewrite Rmult_assoc, Rinv_l by lra. lra. }
  assert (Hr0 : 0 <= r0 <= 1).
  { unfold r0. set (q := (1 - eta) / (1 + eta)) in *. simpl. nra. }
  assert (Hx : 0 <= (1 - c) ^ 5 <= 1).
  { split; [apply pow_le; lra |].
    rewrite <- (pow1 5). apply pow_incr. lra. }
  assert (E : forall x, reflectance eta x = r0 + (1 - r0) * (1 - x) ^ 5).
  { intro x. rewrite reflectance_is_schlick. unfold schlick, r0. exact_ops.
    replace (1 / 1) with 1 by lra. simpl. ring. }
  rewrite !E. split; [exact Hr0 | split; [nra | split]].
  - replace (1 - 1) with 0 by lra. simpl. lra.
  - replace (1 - 0) with 1 by lra. rewrite pow1. lra.
Qed.

(** X11: at grazing incidence ([cos_theta = 0]) the reflectance is 1 for
    every index of refraction, so a refractive material reflects for every
    draw [choice <= 1]. *)
Theorem grazing_incidence_always_reflects (m : Material R) (σ : Mem R) :
  hasRefractive m = true ->
  cosThetaI σ = 0 ->
  choiceOf σ <= 1 ->
  result m σ = reflects m σ.
Proof.
  intros Hm Hc Hch. rewrite (refractive_runs m σ Hm).
  destruct (totalInternalReflection m σ); [reflexivity |].
  replace (fltb (reflectance (etaOf m σ) (cosThetaI σ)) (choiceOf σ)) with false;
    [reflexivity |].
  symmetry. apply Rltb_false. rewrite Hc.
  unfold reflectance. exact_ops. simpl.
  replace (1 / 1 - 0) with 1 by lra. lra.
Qed.

End ExactRefraction.

(** ** The colour, in exact arithmetic *)

Section ExactThroughput.
Import Exact.
Context `{Uniform01 R} `{Constants R}.

Import glm.
Local Open Scope R_scope.

Lemma scaled_in_unit_cube (v : vec3 R) (k : R) :
  inUnitCube v -> 0 <= k <= 1 -> inUnitCube (v :* k)%vec.
Proof.
  unfold inUnitCube. intros (Hx & Hy & Hz) Hk.
  by_components. exact_ops. repeat split; nra.
Qed.

(** Every branch multiplies the colour by a vector of the unit cube. *)
Lemma result_color (m : Material R) (σ : Mem R) :
  inUnitCube (material_color m) ->
  inUnitCube (specular_color (specular m)) ->
  exists k : vec3 R,
    inUnitCube k
    /\ color (pathSegment (result m σ)) = (color (pathSegment σ) * k)%vec.
Proof.
  intros Hc Hs.
  destruct (hasRefractive m) eqn:Hr; [| destruct (hasReflective m) eqn:Hm].
  - rewrite (refractive_runs m σ Hr).
    destruct (totalInternalReflection m σ);
      [| destruct (fltb (reflectance (etaOf m σ) (cosThetaI σ)) (choiceOf σ))];
      eexists; (split; [| reflexivity]); assumption.
  - rewrite (reflective_runs m σ Hr Hm).
    destruct (fltb (lit 2 10) (choiceOf σ));
      eexists; (split; [| reflexivity]);
      apply scaled_in_unit_cube; try assumption; exact_ops; lra.
  - rewrite (diffuse_runs m σ Hr Hm).
    eexists; (split; [| reflexivity]).
    apply scaled_in_unit_cube; try assumption; exact_ops; lra.
Qed.

(** X13: with material colours in the unit cube and a non-negative path
    colour, no branch of [scatterRay] lets a component of the colour grow or
    turn negative. *)
Theorem throughput_never_grows (m : Material R) (σ : Mem R) :
  inUnitCube (material_color m) ->
  inUnitCube (specular_color (specular m)) ->
  0 <= vx (color (pathSegment σ)) ->
  0 <= vy (color (pathSegment σ)) ->
  0 <= vz (color (pathSegment σ)) ->
  let c := color (pathSegment σ) in
  let c' := color (pathSegment (result m σ)) in
  0 <= vx c' <= vx c /\ 0 <= vy c' <= vy c /\ 0 <= vz c' <= vz c.
Proof.
  intros Hc Hs Hx Hy Hz c c'.
  destruct (result_color m σ Hc Hs) as (k & (Hkx & Hky & Hkz) & E).
  unfold c', c. rewrite E. by_components. exact_ops.
  repeat split; nra.
Qed.
End ExactThroughput.

(** ** What the call reads and what it ships, in every arithmetic *)

Section Independence.
Context {F : Type} `{FloatOps F} `{Uniform01 F} `{Constants F}.

Import glm.
Local Open Scope fl_scope.

(** X14: the origin [scatterRay] leaves is the hit point moved by
    [0.001 * normal]: outwards for every material that is not refractive,
    and for a refractive one either outwards or, together with the
    refraction vector as direction, inwards. *)
Theorem origin_is_offset_hit_point (m : Material F) (σ : Mem F) :
  (hasRefractive m = false ->
   origin (ray (pathSegment (result m σ))) = offsetOut σ)
  /\ (origin (ray (pathSegment (result m σ))) = offsetOut σ
      \/ (hasRefractive m = true
          /\ origin (ray (pathSegment (result m σ))) = offsetIn σ
          /\ direction (ray (pathSegment (result m σ))) = refracted m σ)).
Proof.
  destruct (hasRefractive m) eqn:Hr; [| destruct (hasReflective m) eqn:Hm].
  - split; [discriminate |].
    rewrite (refractive_runs m σ Hr).
    destruct (totalInternalReflection m σ);
      [| destruct (choiceOf σ >? reflectance (etaOf m σ) (cosThetaI σ))];
      [now left | right; repeat split | now left].
  - rewrite (reflective_runs m σ Hr Hm).
    destruct (choiceOf σ >? lit 2 10); split; intros; try left; reflexivity.
  - rewrite (diffuse_runs m σ Hr Hm). split; intros; try left; reflexivity.
Qed.

(** X15: for a refractive material the path segment left by the call
    depends on the generator through the third draw alone, and not on
    [hasReflective]: the return of line 152 comes before the flag is read,
    and the hemisphere sample of line 119 is dropped. *)
Theorem refractive_ignores_flag_and_sample
    (m : Material F) (σ : Mem F) (b : bool) (g : RNG) :
  hasRefractive m = true ->
  draw 2 g = draw 2 (rng σ) ->
  pathSegment (result (withReflective m b) (withGenerator σ g))
  = pathSegment (result m σ).
Proof.
  intros Hm Hg.
  rewrite (refractive_runs m σ Hm).
  rewrite (refractive_runs (withReflective m b) (withGenerator σ g) Hm).
  change (totalInternalReflection (withReflective m b) (withGenerator σ g))
    with (totalInternalReflection m σ).
  change (reflectance (etaOf (withReflective m b) (withGenerator σ g))
                      (cosThetaI (withGenerator σ g)))
    with (reflectance (etaOf m σ) (cosThetaI σ)).
  change (choiceOf (withGenerator σ g)) with (draw 2 g). rewrite Hg.
  change (draw 2 (rng σ)) with (choiceOf σ).
  destruct (totalInternalReflection m σ);
    [| destruct (choiceOf σ >? reflectance (etaOf m σ) (cosThetaI σ))];
    reflexivity.
Qed.

(** X16: for a material with neither flag the path segment left by the call
    depends on the generator through the first two draws alone: the third
    draw is taken and not looked at. *)
Theorem diffuse_ignores_choice (m : Material F) (σ : Mem F) (g : RNG) :
  hasRefractive m = false ->
  hasReflective m = false ->
  draw 0 g = draw 0 (rng σ) ->
  draw 1 g = draw 1 (rng σ) ->
  pathSegment (result m (withGenerator σ g)) = pathSegment (result m σ).
Proof.
  intros Hr Hm Hd0 Hd1.
  rewrite (diffuse_runs m σ Hr Hm), (diffuse_runs m (withGenerator σ g) Hr Hm).
  unfold bouncesDiffuse, outcome, hemisphereSample.
  cbn [pathSegment withGenerator rng].
  change (normalOf (withGenerator σ g)) with (normalOf σ).
  change (offsetOut (withGenerator σ g)) with (offsetOut σ).
  rewrite Hd0, Hd1. reflexivity.
Qed.

(** X7: the refract branch does not guard the fallback of [glm::refract]:
    for a refractive material, when the must-reflect test of line 133 is
    false, [choice > r] and the library's own test [k >= 0] fails, the call
    leaves the zero vector as direction, with the refract colour and the
    inward origin; in binary32 this happens on a ray of computed length 1. *)
Theorem refract_fallback_is_not_guarded (m : Material F) (σ : Mem F) :
  hasRefractive m = true ->
  totalInternalReflection m σ = false ->
  (choiceOf σ >? reflectance (etaOf m σ) (cosThetaI σ)) = true ->
  (refractK (incoming σ) (normalOf σ) (etaOf m σ) >=? lit 0 1) = false ->
  result m σ = outcome σ (offsetIn σ) (ivec3 0 0 0) (material_color m).
Proof.
  intros Hm Ht Hc Hk.
  rewrite (refractive_runs m σ Hm), Ht, Hc.
  unfold refracts, refracted, refract.
  change (lit 1 1 - etaOf m σ * etaOf m σ
                    * (lit 1 1 - dot (normalOf σ) (incoming σ)
                                 * dot (normalOf σ) (incoming σ)))
    with (refractK (incoming σ) (normalOf σ) (etaOf m σ)).
  rewrite Hk. reflexivity.
Qed.
End Independence.

(** ** Binary32: the square roots of negative numbers *)

Section Binary32Roots.
Import B32.
Context {L : Libm} `{Uniform01 float}.

Import glm.
Local Open Scope fl_scope.

Lemma sqrt_of_negative (x : float) : (x <? lit 0 1) = true -> fsqrt x = NaN.
Proof.
  destruct x as [s | s | | s mx e]; try destruct s; try discriminate;
    reflexivity.
Qed.

(** X17: in binary32, whenever the remapped [t_p] of line 51 is negative,
    [up] of line 53 is a NaN and the stratified sampler returns three NaN,
    whatever the normal and whatever [cos] and [sin] return. *)
Theorem stratified_negative_remap_is_NaN (normal : vec3 float) (s t : float) :
  (snd (shirleyRemap s t) <? lit 0 1) = true ->
  shirleyDirection normal s t = vec NaN NaN NaN.
Proof.
  intros Hneg. unfold shirleyDirection.
  destruct (shirleyRemap s t) as [s_p t_p]. cbn [snd] in Hneg.
  rewrite (sqrt_of_negative _ Hneg).
  change (fsqrt (lit 1 1 - NaN * NaN)) with NaN.
  apply hemisphereDirection_NaN.
Qed.

(** X18: in binary32, when [cos_theta * cos_theta] rounds above 1 (a unit
    vector whose computed squared length exceeds 1 is enough), [sin_theta] of
    line 125 is a NaN, the must-reflect test of line 133 is false, and a
    refractive material refracts or reflects on [choice > r] alone. *)
Theorem no_must_reflect_when_sine_is_NaN (m : Material float) (σ : Mem float) :
  (lit 1 1 - cosThetaI σ * cosThetaI σ <? lit 0 1) = true ->
  sinThetaI σ = NaN
  /\ totalInternalReflection m σ = false
  /\ (hasRefractive m = true ->
      result m σ
      = if choiceOf σ >? reflectance (etaOf m σ) (cosThetaI σ)
        then refracts m σ else reflects m σ).
Proof.
  intros Hneg.
  assert (Hs : sinThetaI σ = NaN) by (apply sqrt_of_negative; exact Hneg).
  assert (Ht : totalInternalReflection m σ = false).
  { unfold totalInternalReflection. rewrite Hs, mul_NaN_r. reflexivity. }
  split; [exact Hs | split; [exact Ht |]].
  intros Hm. rewrite (refractive_runs m σ Hm), Ht. reflexivity.
Qed.
End Binary32Roots.

(** ** The sample inputs, again *)

Section MoreSamples.
Import Exact.
Import glm.
Local Open Scope R_scope.

Lemma grazing_normal_unit : dot (normalOf grazing) (normalOf grazing) = 1.
Proof. unfold normalOf, grazing. cbn [intersection surfaceNormal]. by_components. exact_ops. lra. Qed.

Lemma grazing_incoming_unit : dot (incoming grazing) (incoming grazing) = 1.
Proof. unfold incoming, grazing. cbn [pathSegment ray direction]. by_components. exact_ops. lra. Qed.

Lemma grazing_cosThetaI : cosThetaI grazing = 0.
Proof.
  unfold cosThetaI, incoming, normalOf, grazing.
  cbn [pathSegment intersection ray direction surfaceNormal].
  by_components. exact_ops. lra.
Qed.

Lemma grazing_first_draw : draw 0 (rng grazing) = 1 / 2.
Proof. reflexivity. Qed.

Lemma quarter_half_remap : snd (shirleyRemap (1 / 4) (1 / 2)) = 1 / 2.
Proof.
  rewrite shirleyRemap_second. exact_ops.
  replace (Rltb (1 / 4) (1 / 2)) with true by (symmetry; apply Rltb_true; lra).
  replace (2 / 1 * (1 / 2)) with 1 by lra. rewrite sqrt_1. lra.
Qed.

Lemma clearGlass_no_must_reflect :
  totalInternalReflection clearGlass grazing = false.
Proof.
  unfold totalInternalReflection. rewrite grazing_sinThetaI.
  apply Rltb_false. unfold etaOf, clearGlass, grazing.
  cbn [intersection outside indexOfRefraction]. exact_ops. lra.
Qed.

Lemma white_in_unit_cube : inUnitCube white.
Proof. unfold inUnitCube, white. cbn [vx vy vz]. lra. Qed.

Lemma frame_axis_far_from_normal_witness :
  dot (normalOf grazing) (normalOf grazing) = 1
  /\ 2 / 3 <= dot (cross (normalOf grazing) (directionNotNormal (normalOf grazing)))
                  (cross (normalOf grazing) (directionNotNormal (normalOf grazing))).
Proof.
  split; [exact grazing_normal_unit |].
  apply frame_axis_far_from_normal.
  exact grazing_normal_unit.
Defined.

Lemma tangent_frame_orthonormal_witness :
  dot (normalOf grazing) (normalOf grazing) = 1
  /\ dot (perpendicularDirection1 (normalOf grazing))
         (perpendicularDirection2 (normalOf grazing)) = 0.
Proof.
  split; [exact grazing_normal_unit |].
  apply tangent_frame_orthonormal.
  exact grazing_normal_unit.
Defined.

Lemma baseline_sample_cosine_witness :
  dot (normalOf grazing) (normalOf grazing) = 1
  /\ 0 <= draw 0 (rng grazing) <= 1
  /\ dot (fst (calculateRandomDirectionInHemisphere (normalOf grazing) (rng grazing)))
         (normalOf grazing)
     = sqrt (draw 0 (rng grazing)).
Proof.
  assert (Hu : 0 <= draw 0 (rng grazing) <= 1)
    by (rewrite grazing_first_draw; lra).
  split; [exact grazing_normal_unit | split; [exact Hu |]].
  apply baseline_sample_cosine; [exact grazing_normal_unit | exact Hu].
Defined.

Lemma stratified_remap_in_range_witness :
  0 <= 1 / 4 < 1 /\ 0 <= 1 / 2 < 1
  /\ (0 <= snd (shirleyRemap (1 / 4) (1 / 2)) <= 1
      <-> (1 / 4 < 1 / 2 /\ 1 / 8 <= 1 / 2) \/ (1 / 2 <= 1 / 4 /\ 1 / 2 <= 7 / 8)).
Proof.
  assert (Hs : 0 <= 1 / 4 < 1) by lra.
  assert (Ht : 0 <= 1 / 2 < 1) by lra.
  split; [exact Hs | split; [exact Ht |]].
  exact (stratified_remap_in_range Hs Ht).
Defined.

Lemma stratified_sample_cosine_witness :
  dot (normalOf grazing) (normalOf grazing) = 1
  /\ 0 <= snd (shirleyRemap (1 / 4) (1 / 2)) <= 1
  /\ dot (shirleyDirection (normalOf grazing) (1 / 4) (1 / 2))
         (shirleyDirection (normalOf grazing) (1 / 4) (1 / 2)) = 1.
Proof.
  assert (Ht : 0 <= snd (shirleyRemap (1 / 4) (1 / 2)) <= 1)
    by (rewrite quarter_half_remap; lra).
  split; [exact grazing_normal_unit | split; [exact Ht |]].
  apply stratified_sample_cosine; [exact grazing_normal_unit | exact Ht].
Defined.

Lemma mirror_is_unit_reflection_witness :
  dot (incoming grazing) (incoming grazing) = 1
  /\ dot (normalOf grazing) (normalOf grazing) = 1
  /\ dot (mirror grazing) (mirror grazing) = 1.
Proof.
  split; [exact grazing_incoming_unit | split; [exact grazing_normal_unit |]].
  apply mirror_is_unit_reflection;
    [exact grazing_incoming_unit | exact grazing_normal_unit].
Defined.

Lemma clearGlass_eta : etaOf clearGlass grazing = 1.
Proof. reflexivity. Qed.

Lemma no_must_reflect_when_ratio_at_most_one_witness :
  etaOf clearGlass grazing <= 1
  /\ totalInternalReflection clearGlass grazing = false.
Proof.
  assert (He : etaOf clearGlass grazing <= 1) by (rewrite clearGlass_eta; lra).
  split; [exact He |].
  apply no_must_reflect_when_ratio_at_most_one. exact He.
Defined.

Lemma reflectance_bounds_witness :
  0 <= 3 / 2 /\ 0 <= 1 / 2 <= 1
  /\ reflectance (3 / 2) (1 / 2) <= 1.
Proof.
  assert (He : 0 <= 3 / 2) by lra.
  assert (Hc : 0 <= 1 / 2 <= 1) by lra.
  split; [exact He | split; [exact Hc |]].
  apply reflectance_bounds; [exact He | exact Hc].
Defined.

Lemma grazing_incidence_always_reflects_witness :
  hasRefractive glass = true
  /\ cosThetaI grazing = 0
  /\ choiceOf grazing <= 1
  /\ result glass grazing = reflects glass grazing.
Proof.
  assert (Hch : choiceOf grazing <= 1) by (rewrite grazing_choice; lra).
  split; [reflexivity | split; [exact grazing_cosThetaI | split; [exact Hch |]]].
  apply grazing_incidence_always_reflects;
    [reflexivity | exact grazing_cosThetaI | exact Hch].
Defined.

Lemma throughput_never_grows_witness :
  inUnitCube (material_color glossy)
  /\ inUnitCube (specular_color (specular glossy))
  /\ 0 <= vx (color (pathSegment (result glossy grazing)))
          <= vx (color (pathSegment grazing)).
Proof.
  split; [exact white_in_unit_cube | split; [exact white_in_unit_cube |]].
  apply throughput_never_grows;
    try exact white_in_unit_cube;
    unfold grazing, white; cbn [pathSegment color vx vy vz]; lra.
Defined.

Lemma refractive_ignores_flag_and_sample_witness :
  hasRefractive glass = true
  /\ draw 2 (otherTape : RNG) = draw 2 (rng grazing)
  /\ pathSegment (result (withReflective glass true) (withGenerator grazing otherTape))
     = pathSegment (result glass grazing).
Proof.
  split; [reflexivity | split; [reflexivity |]].
  apply refractive_ignores_flag_and_sample; reflexivity.
Defined.

Lemma diffuse_ignores_choice_witness :
  hasRefractive grey = false
  /\ hasReflective grey = false
  /\ draw 0 (thirdDrawDiffers : RNG) = draw 0 (rng grazing)
  /\ draw 1 (thirdDrawDiffers : RNG) = draw 1 (rng grazing)
  /\ pathSegment (result grey (withGenerator grazing thirdDrawDiffers))
     = pathSegment (result grey grazing).
Proof.
  split; [reflexivity | split; [reflexivity
                               | split; [reflexivity | split; [reflexivity |]]]].
  apply diffuse_ignores_choice; reflexivity.
Defined.
End MoreSamples.

Section Binary32Samples.
Import B32.
#[local] Existing Instance sampleLibm.
Import glm.
Local Open Scope fl_scope.

Lemma stratified_negative_remap_is_NaN_witness :
  (snd (shirleyRemap (lit 1 4) (lit 1 16)) <? lit 0 1) = true
  /\ shirleyDirection slantedNormal (lit 1 4) (lit 1 16) = vec NaN NaN NaN.
Proof.
  assert (Hneg : (snd (shirleyRemap (lit 1 4) (lit 1 16)) <? lit 0 1) = true)
    by (vm_compute; reflexivity).
  split; [exact Hneg |].
  apply stratified_negative_remap_is_NaN. exact Hneg.
Defined.

Lemma no_must_reflect_when_sine_is_NaN_witness :
  dot slantedNormal slantedNormal = S754_finite false 8388610 (-23)
  /\ (lit 1 1 - cosThetaI slantedHeadOn * cosThetaI slantedHeadOn <? lit 0 1) = true
  /\ totalInternalReflection binary32Glass slantedHeadOn = false.
Proof.
  assert (Hneg : (lit 1 1 - cosThetaI slantedHeadOn * cosThetaI slantedHeadOn
                  <? lit 0 1) = true)
    by (vm_compute; reflexivity).
  split; [vm_compute; reflexivity | split; [exact Hneg |]].
  apply no_must_reflect_when_sine_is_NaN. exact Hneg.
Defined.

Lemma refract_fallback_is_not_guarded_witness :
  dot (incoming skimming) (incoming skimming) = lit 1 1
  /\ hasRefractive binary32Glass = true
  /\ totalInternalReflection binary32Glass skimming = false
  /\ refractK (incoming skimming) (normalOf skimming) (etaOf binary32Glass skimming)
     = S754_finite true 8388608 (-46)
  /\ result binary32Glass skimming
     = outcome skimming (offsetIn skimming) (ivec3 0 0 0)
               (material_color binary32Glass).
Proof.
  split; [vm_compute; reflexivity | split; [reflexivity | split; [
    vm_compute; reflexivity | split; [vm_compute; reflexivity |]]]].
  apply refract_fallback_is_not_guarded;
    [reflexivity | vm_compute; reflexivity | vm_compute; reflexivity
     | vm_compute; reflexivity].
Defined.

(** In binary32.  Glass of index 1.5 met head-on from inside: the ratio is
    the reciprocal [1.f / 1.5f], the must-reflect test is false,
    [choice = 0.5 > r] and the ray is refracted.  Glass of index 2 met
    head-on from outside with [choice] equal to [r = 14913081 * 2^-27]:
    [choice <= r] and the ray is reflected. *)
Lemma C5_witness :
  let inside := headOn32 false (lit 1 2) in
  let tie := headOn32 true (S754_finite false 14913081 (-27)) in
  hasRefractive binary32Glass = true
  /\ outside (intersection inside) = false
  /\ etaOf binary32Glass inside = lit 1 1 / lit 3 2
  /\ result binary32Glass inside
     = outcome inside (hitPoint inside - lit 1 1000 *: normalOf inside)%vec
               (refract (incoming inside) (normalOf inside) (lit 1 1 / lit 3 2))
               (material_color binary32Glass)
  /\ hasRefractive denseGlass = true
  /\ reflectance (etaOf denseGlass tie) (cosThetaI tie) = choiceOf tie
  /\ result denseGlass tie
     = outcome tie (hitPoint tie + lit 1 1000 *: normalOf tie)%vec
               (mirror tie) (specular_color (specular denseGlass)).
Proof.
  intros inside tie.
  split; [reflexivity | split; [reflexivity | split; [reflexivity | split]]].
  - refine (proj1 (proj2 (C5_refractive_dispatch binary32Glass inside eq_refl)) _ _);
      vm_compute; reflexivity.
  - split; [reflexivity | split; [vm_compute; reflexivity |]].
    refine (proj1 (proj2 (proj2 (C5_refractive_dispatch denseGlass tie eq_refl))) _).
    vm_compute; reflexivity.
Defined.
End Binary32Samples.
